(** * svg-to-avif: a shallow embedding of [index.js]

    The program scans a project tree for SVG files, converts each one to AVIF
    through a browser session, keeps the artifact when it is smaller, rewrites
    the textual references to the old file name and deletes the original.

    [index.js] is present in two versions.  The first one (lines 1-177) has a
    size threshold in the candidate selector and a size gate in [convert]; the
    second one (lines 178-335) selects on an embedded [<image] tag and has no
    gate.  They are embedded as the modules [SizeGated] and [RasterOnly]; the
    code they share ([updateReferences], the session of [convert], the width
    formula, the name derivation) is embedded once.

    - JavaScript strings are modelled on their ASCII fragment: a string is a
      sequence of [ascii] characters, a file's byte size is the length of its
      content.
    - JavaScript numbers are IEEE 754 binary64 values: [float].
    - [String.prototype.replace], [RegExp] and [Number] follow ECMA-262; the
      patterns outside the embedded fragment are left to the [host].
    - Asynchronous code is a state and error monad over the [world] (file
      system, browser, console); a rejected promise is a raised [error].
    - What the program does not control ([glob], the browser, the two web
      tools) answers through the fields of a [host]. *)

From Stdlib Require Import ZArith Floats Ascii String DecimalString List Bool Lia.
From stdpp Require Import gmap strings list.

Local Open Scope char_scope.
Local Open Scope nat_scope.

(** ** Strings *)

Abbreviation chars := (list ascii).

Definition str (s : string) : chars := list_ascii_of_string s.
Definition unstr (l : chars) : string := string_of_list_ascii l.

Definition ascii_eqb (a b : ascii) : bool := Ascii.eqb a b.

(** [s.startsWith(p)] *)
Fixpoint startsWith (p s : chars) : bool :=
  match p, s with
  | [], _ => true
  | a :: p', b :: s' => ascii_eqb a b && startsWith p' s'
  | _ :: _, [] => false
  end.

(** [StringIndexOf(s, p, 0)]: the least index at which [p] occurs in [s]. *)
Fixpoint indexOf (p s : chars) : option nat :=
  if startsWith p s then Some 0
  else match s with
       | [] => None
       | _ :: s' => match indexOf p s' with
                    | Some i => Some (S i)
                    | None => None
                    end
       end.

(** [s.includes(p)] *)
Definition includes (s p : chars) : bool :=
  match indexOf p s with Some _ => true | None => false end.

Definition is_digit (c : ascii) : bool :=
  let n := nat_of_ascii c in (48 <=? n) && (n <=? 57).

Definition digit_val (c : ascii) : nat := nat_of_ascii c - 48.

(** [GetSubstitution(matched, str, position, captures, undefined, template)]
    of ECMA-262, with [before] the part of [str] in front of the match and
    [after] the part behind it.  There are no named captures, so [$<] stands
    for itself. *)
Fixpoint getSubstitution (matched before after : chars)
    (captures : list (option chars)) (template : chars) : chars :=
  match template with
  | [] => []
  | "$" :: t1 =>
      match t1 with
      | [] => ["$"]
      | "$" :: t2 => "$" :: getSubstitution matched before after captures t2
      | "&" :: t2 => matched ++ getSubstitution matched before after captures t2
      | "`" :: t2 => before ++ getSubstitution matched before after captures t2
      | "'" :: t2 => after ++ getSubstitution matched before after captures t2
      | d1 :: t2 =>
          if is_digit d1 then
            let captureLen := length captures in
            let one :=
              (* a one-digit reference, followed by the rest of the template *)
              let index := digit_val d1 in
              if (1 <=? index) && (index <=? captureLen) then
                match captures !! (index - 1) with
                | Some (Some cap) => cap
                | _ => []
                end ++ getSubstitution matched before after captures t2
              else "$" :: d1 :: getSubstitution matched before after captures t2 in
            match t2 with
            | d2 :: t3 =>
                if is_digit d2 then
                  let index := 10 * digit_val d1 + digit_val d2 in
                  if captureLen <? index then one
                  else if 1 <=? index then
                    match captures !! (index - 1) with
                    | Some (Some cap) => cap
                    | _ => []
                    end ++ getSubstitution matched before after captures t3
                  else "$" :: d1 :: d2 :: getSubstitution matched before after captures t3
                else one
            | [] => one
            end
          else "$" :: getSubstitution matched before after captures t1
      end
  | c :: t1 => c :: getSubstitution matched before after captures t1
  end.

(** [s.replace(pattern, replacement)] with a string pattern: only the first
    occurrence is replaced. *)
Definition replace_string (s pattern replacement : chars) : chars :=
  match indexOf pattern s with
  | None => s
  | Some pos =>
      let before := take pos s in
      let after := drop (pos + length pattern) s in
      before ++ getSubstitution pattern before after [] replacement ++ after
  end.

(** ** Regular expressions

    [new RegExp(originalName, "g")] compiles the file name as a pattern.  The
    embedding covers the patterns built from literal characters, [.], [^],
    [$], [|], capturing groups and the quantifiers [*], [+], [?] (greedy and
    lazy).  Patterns that use a backslash, a character class, a brace or a
    [(?] group are reported as [Beyond]: the embedding says nothing about
    them. *)

Inductive regex : Type :=
| Empty
| Char (c : ascii)
| Dot
| AssertStart
| AssertEnd
| Seq (r1 r2 : regex)
| Alt (r1 r2 : regex)
| Quant (min : nat) (max : option nat) (greedy : bool) (r : regex)
| Group (i : nat) (r : regex).

Inductive compiled (A : Type) : Type :=
| Compiled (a : A)
| SyntaxError
| Beyond.
Arguments Compiled {A} a.
Arguments SyntaxError {A}.
Arguments Beyond {A}.

(** *** Parsing a pattern (ECMA-262 22.2.1 with Annex B.1.2) *)

Inductive last_term : Type :=
| LNone          (* nothing to repeat *)
| LAtom          (* a quantifiable atom *)
| LAssert        (* [^] or [$] *)
| LGreedy        (* a quantifier was just read: [?] makes it lazy *)
| LLazy.

Record frame : Type := Frame {
  f_group : nat;            (* index of the group this frame parses *)
  f_alts : list regex;      (* finished alternatives, last first *)
  f_terms : list regex;     (* terms of the current alternative, last first *)
  f_last : last_term
}.

Fixpoint alternative (terms : list regex) : regex :=
  match terms with
  | [] => Empty
  | t :: ts => Seq (alternative ts) t
  end.

Definition disjunction (f : frame) : regex :=
  fold_left (fun acc a => Alt a acc) (f_alts f) (alternative (f_terms f)).

Definition push_term (t : regex) (k : last_term) (f : frame) : frame :=
  Frame (f_group f) (f_alts f) (t :: f_terms f) k.

Definition quantify (min : nat) (max : option nat) (f : frame) : option frame :=
  match f_last f, f_terms f with
  | LAtom, t :: ts =>
      Some (Frame (f_group f) (f_alts f) (Quant min max true t :: ts) LGreedy)
  | _, _ => None
  end.

Definition make_lazy (f : frame) : option frame :=
  match f_last f, f_terms f with
  | LGreedy, Quant min max _ t :: ts =>
      Some (Frame (f_group f) (f_alts f) (Quant min max false t :: ts) LLazy)
  | _, _ => None
  end.

Fixpoint parse (p : chars) (stack : list frame) (cur : frame) (ngroups : nat)
    : compiled (regex * nat) :=
  match p with
  | [] =>
      match stack with
      | [] => Compiled (disjunction cur, ngroups)
      | _ :: _ => SyntaxError          (* unterminated group *)
      end
  | c :: p' =>
      if ascii_eqb c "\" || ascii_eqb c "[" || ascii_eqb c "{" then Beyond
      else if ascii_eqb c "(" then
        match p' with
        | "?" :: _ => Beyond
        | _ => parse p' (cur :: stack) (Frame ngroups [] [] LNone) (S ngroups)
        end
      else if ascii_eqb c ")" then
        match stack with
        | [] => SyntaxError            (* unmatched ')' *)
        | parent :: stack' =>
            parse p' stack'
              (push_term (Group (f_group cur) (disjunction cur)) LAtom parent)
              ngroups
        end
      else if ascii_eqb c "|" then
        parse p' stack
          (Frame (f_group cur) (alternative (f_terms cur) :: f_alts cur) [] LNone)
          ngroups
      else if ascii_eqb c "*" then
        match quantify 0 None cur with
        | Some f => parse p' stack f ngroups
        | None => SyntaxError          (* nothing to repeat *)
        end
      else if ascii_eqb c "+" then
        match quantify 1 None cur with
        | Some f => parse p' stack f ngroups
        | None => SyntaxError
        end
      else if ascii_eqb c "?" then
        match make_lazy cur with
        | Some f => parse p' stack f ngroups
        | None =>
            match quantify 0 (Some 1) cur with
            | Some f => parse p' stack f ngroups
            | None => SyntaxError
            end
        end
      else if ascii_eqb c "^" then parse p' stack (push_term AssertStart LAssert cur) ngroups
      else if ascii_eqb c "$" then parse p' stack (push_term AssertEnd LAssert cur) ngroups
      else if ascii_eqb c "." then parse p' stack (push_term Dot LAtom cur) ngroups
      else parse p' stack (push_term (Char c) LAtom cur) ngroups
  end.

(** [new RegExp(pattern, "g")]: the matcher and its number of groups. *)
Definition RegExp (pattern : chars) : compiled (regex * nat) :=
  parse pattern [] (Frame 0 [] [] LNone) 0.

(** *** Matching (ECMA-262 22.2.2: backtracking matchers with continuations) *)

Record mstate : Type := MState {
  rest : chars;                          (* the input from [endIndex] on *)
  endIndex : nat;
  captures : list (option chars)
}.

Definition line_terminator (c : ascii) : bool :=
  ascii_eqb c "010" || ascii_eqb c "013".

(** The capture groups inside [r]: a quantifier clears them at each round. *)
Fixpoint groups_of (r : regex) : list nat :=
  match r with
  | Seq r1 r2 | Alt r1 r2 => groups_of r1 ++ groups_of r2
  | Quant _ _ _ r1 => groups_of r1
  | Group i r1 => i :: groups_of r1
  | _ => []
  end.

Definition clear_captures (gs : list nat) (caps : list (option chars))
    : list (option chars) :=
  fold_left (fun acc i => <[i := None]> acc) gs caps.

Definition orElse (a : option mstate) (b : unit -> option mstate) : option mstate :=
  match a with
  | Some z => Some z
  | None => b tt
  end.

(** RepeatMatcher (22.2.2.3.1) for the matcher [m] of the quantified atom,
    whose capture groups are [gs].  Every round either lowers [min] or
    consumes input, so a [fuel] above [min + length (rest x)] is never used
    up. *)
Fixpoint repeatMatcher (m : mstate -> (mstate -> option mstate) -> option mstate)
    (gs : list nat) (greedy : bool) (fuel min : nat) (max : option nat)
    (x : mstate) (c : mstate -> option mstate) {struct fuel} : option mstate :=
  match fuel with
  | 0 => None
  | S fuel' =>
      match max with
      | Some 0 => c x
      | _ =>
          let d := fun y : mstate =>
            if (min =? 0) && (endIndex y =? endIndex x) then None
            else repeatMatcher m gs greedy fuel' (pred min) (option_map pred max) y c in
          let xr := MState (rest x) (endIndex x) (clear_captures gs (captures x)) in
          if negb (min =? 0) then m xr d
          else if greedy then orElse (m xr d) (fun _ => c x)
          else orElse (c x) (fun _ => m xr d)
      end
  end.

Fixpoint matcher (r : regex) (x : mstate) (c : mstate -> option mstate)
    {struct r} : option mstate :=
  match r with
  | Empty => c x
  | Char a =>
      match rest x with
      | ch :: tl =>
          if ascii_eqb ch a then c (MState tl (S (endIndex x)) (captures x)) else None
      | [] => None
      end
  | Dot =>
      match rest x with
      | ch :: tl =>
          if line_terminator ch then None
          else c (MState tl (S (endIndex x)) (captures x))
      | [] => None
      end
  | AssertStart => if endIndex x =? 0 then c x else None
  | AssertEnd => match rest x with [] => c x | _ :: _ => None end
  | Seq r1 r2 => matcher r1 x (fun y => matcher r2 y c)
  | Alt r1 r2 => orElse (matcher r1 x c) (fun _ => matcher r2 x c)
  | Group i r1 =>
      matcher r1 x (fun y =>
        let cap := take (endIndex y - endIndex x) (rest x) in
        c (MState (rest y) (endIndex y) (<[i := Some cap]> (captures y))))
  | Quant min max greedy r1 =>
      repeatMatcher (matcher r1) (groups_of r1) greedy
        (S (min + length (rest x))) min max x c
  end.

Record match_result : Type := MatchResult {
  m_index : nat;                    (* where the match starts *)
  m_end : nat;                      (* where it ends *)
  m_captures : list (option chars)
}.

(** One attempt at position [idx], where [s] is the input from [idx] on. *)
Definition match_at (r : regex) (ngroups : nat) (idx : nat) (s : chars)
    : option match_result :=
  match matcher r (MState s idx (replicate ngroups None)) Some with
  | Some y => Some (MatchResult idx (endIndex y) (captures y))
  | None => None
  end.

(** [RegExpBuiltinExec] without the sticky flag: the first position from
    [idx] on at which the pattern matches. *)
Fixpoint exec (r : regex) (ngroups : nat) (idx : nat) (s : chars)
    : option match_result :=
  match match_at r ngroups idx s with
  | Some m => Some m
  | None =>
      match s with
      | [] => None
      | _ :: s' => exec r ngroups (S idx) s'
      end
  end.

(** [RegExp.prototype[@@replace]] for a global pattern and a string
    replacement, as one pass over the input: [seen] is the input in front of
    [s] (last character first), [skip] counts the characters of [s] that the
    previous match still covers.  A match is looked for at every position not
    covered by the previous one; after an empty match the search moves on by
    one character. *)
Fixpoint replace_scan (r : regex) (ngroups : nat) (replacement : chars)
    (seen s : chars) (skip : nat) : chars :=
  match skip with
  | S skip' =>
      match s with
      | [] => []
      | ch :: s' => replace_scan r ngroups replacement (ch :: seen) s' skip'
      end
  | 0 =>
      match match_at r ngroups (length seen) s with
      | Some m =>
          let len := m_end m - m_index m in
          let sub := getSubstitution (take len s) (rev seen) (drop len s)
                       (m_captures m) replacement in
          sub ++
          match s with
          | [] => []
          | ch :: s' =>
              if len =? 0
              then ch :: replace_scan r ngroups replacement (ch :: seen) s' 0
              else replace_scan r ngroups replacement (ch :: seen) s' (len - 1)
          end
      | None =>
          match s with
          | [] => []
          | ch :: s' => ch :: replace_scan r ngroups replacement (ch :: seen) s' 0
          end
      end
  end.

Inductive outcome (A : Type) : Type :=
| Returns (a : A)
| Throws
| Unmodelled.
Arguments Returns {A} a.
Arguments Throws {A}.
Arguments Unmodelled {A}.

(** [content.replace(new RegExp(pattern, "g"), replacement)] *)
Definition replace_regexp (content pattern replacement : chars) : outcome chars :=
  match RegExp pattern with
  | Compiled (r, ngroups) => Returns (replace_scan r ngroups replacement [] content 0)
  | SyntaxError => Throws
  | Beyond => Unmodelled
  end.

(** [pattern.test(content)] and [pattern.exec(content)] for a pattern without
    flags: the search starts at index 0. *)
Definition exec_pattern (pattern content : chars) : outcome (option match_result) :=
  match RegExp pattern with
  | Compiled (r, ngroups) => Returns (exec r ngroups 0 content)
  | SyntaxError => Throws
  | Beyond => Unmodelled
  end.

(** ** Numbers

    [Number(width)] is StringToNumber of ECMA-262 7.1.4.1.1, the value being
    the binary64 number nearest to the mathematical value of the literal
    (ties to even).  [Math.round] is ECMA-262 21.3.2.28. *)

Definition is_whitespace (c : ascii) : bool :=
  let n := nat_of_ascii c in
  (n =? 9) || (n =? 10) || (n =? 11) || (n =? 12) || (n =? 13) || (n =? 32).

Fixpoint trim_start (s : chars) : chars :=
  match s with
  | c :: s' => if is_whitespace c then trim_start s' else s
  | [] => []
  end.

Definition trim (s : chars) : chars := rev (trim_start (rev (trim_start s))).

(** The value of a digit in base 16 (which covers bases 2, 8 and 10). *)
Definition hex_val (c : ascii) : option Z :=
  let n := nat_of_ascii c in
  if (48 <=? n) && (n <=? 57) then Some (Z.of_nat (n - 48))
  else if (97 <=? n) && (n <=? 102) then Some (Z.of_nat (n - 87))
  else if (65 <=? n) && (n <=? 70) then Some (Z.of_nat (n - 55))
  else None.

(** The digits of [s] in base [base], most significant first; [None] when a
    character is not a digit of that base. *)
Fixpoint digits_value (base : Z) (acc : Z) (s : chars) : option Z :=
  match s with
  | [] => Some acc
  | c :: s' =>
      match hex_val c with
      | Some d => if (d <? base)%Z then digits_value base (base * acc + d)%Z s' else None
      | None => None
      end
  end.

Fixpoint span_digits (s : chars) : chars * chars :=
  match s with
  | c :: s' =>
      if is_digit c then let (ds, r) := span_digits s' in (c :: ds, r) else ([], s)
  | [] => ([], [])
  end.

Definition decimal_value (ds : chars) : Z :=
  match digits_value 10 0 ds with Some v => v | None => 0%Z end.

(** The binary64 number nearest to [num / den], for [num >= 0] and [den > 0]:
    the quotient is computed with more than 60 bits and a sticky bit, then
    rounded once. *)
Definition round_ratio (num den : Z) : spec_float :=
  let s := Z.max 0 (62 + Z.log2 den - Z.log2 num) in
  let q := (num * 2 ^ s / den)%Z in
  let sticky := if (num * 2 ^ s mod den =? 0)%Z then 0%Z else 1%Z in
  binary_normalize prec emax (2 * q + sticky) (- s - 1) false.

(** The number with mathematical value [m * 10 ^ e], for [m >= 0]. *)
Definition number_of_decimal (m e : Z) : float :=
  if (m =? 0)%Z then PrimFloat.zero
  else if (0 <=? e)%Z then SF2Prim (binary_normalize prec emax (m * 10 ^ e) 0 false)
  else SF2Prim (round_ratio m (10 ^ (- e))).

(** ExponentPart: [e] or [E], an optional sign, digits. *)
Definition parse_exponent (s : chars) : option Z :=
  match s with
  | [] => Some 0%Z
  | c :: s1 =>
      if ascii_eqb c "e" || ascii_eqb c "E" then
        let '(neg, s2) :=
          match s1 with
          | "-" :: s2 => (true, s2)
          | "+" :: s2 => (false, s2)
          | _ => (false, s1)
          end in
        match span_digits s2 with
        | ((_ :: _) as ds, []) =>
            Some (if neg then (- decimal_value ds)%Z else decimal_value ds)
        | _ => None
        end
      else None
  end.

(** StrUnsignedDecimalLiteral *)
Definition unsigned_decimal (s : chars) : option float :=
  if decide (s = str "Infinity") then Some PrimFloat.infinity
  else
    let (int, s1) := span_digits s in
    let '(frac, s2) :=
      match s1 with
      | "." :: s1' => span_digits s1'
      | _ => ([], s1)
      end in
    let dotted := match s1 with "." :: _ => true | _ => false end in
    match int, frac with
    | [], [] => None
    | _, _ =>
        match parse_exponent s2 with
        | Some e =>
            (* [DecimalDigits ExponentPart] has no dot; with a dot, digits on
               one side are enough *)
            if negb dotted && match int with [] => true | _ => false end then None
            else Some (number_of_decimal (decimal_value (int ++ frac))
                         (e - Z.of_nat (length frac)))
        | None => None
        end
    end.

(** NonDecimalIntegerLiteral: [0x], [0o], [0b] and at least one digit. *)
Definition non_decimal (s : chars) : option float :=
  match s with
  | "0" :: b :: ((_ :: _) as ds) =>
      let base :=
        if ascii_eqb b "x" || ascii_eqb b "X" then Some 16%Z
        else if ascii_eqb b "o" || ascii_eqb b "O" then Some 8%Z
        else if ascii_eqb b "b" || ascii_eqb b "B" then Some 2%Z
        else None in
      match base with
      | Some base =>
          match digits_value base 0 ds with
          | Some v => Some (SF2Prim (binary_normalize prec emax v 0 false))
          | None => None
          end
      | None => None
      end
  | _ => None
  end.

Definition Number (s : chars) : float :=
  match trim s with
  | [] => PrimFloat.zero
  | t =>
      match non_decimal t with
      | Some v => v
      | None =>
          let signed :=
            match t with
            | "-" :: t' => option_map PrimFloat.opp (unsigned_decimal t')
            | "+" :: t' => unsigned_decimal t'
            | _ => unsigned_decimal t
            end in
          match signed with
          | Some v => v
          | None => PrimFloat.nan
          end
      end
  end.

(** [Math.round(x)]: the nearest integral number, ties towards +infinity. *)
Definition Math_round (x : float) : float :=
  match Prim2SF x with
  | S754_finite sign m e =>
      if (0 <=? e)%Z then x
      else
        let k := (- e)%Z in
        if sign then
          (* x = - m / 2^k *)
          let n := (- ((2 ^ k - 2 * Zpos m) / 2 ^ (k + 1)))%Z in
          if (n =? 0)%Z then PrimFloat.neg_zero
          else PrimFloat.opp (SF2Prim (binary_normalize prec emax n 0 false))
        else
          let n := ((2 * Zpos m + 2 ^ k) / 2 ^ (k + 1))%Z in
          SF2Prim (binary_normalize prec emax n 0 false)
  | _ => x
  end.

(** [Math.round(3.12476 * Number(width) + 0.196661)] *)
#[warnings="-inexact-float"]
Definition target_width (width : chars) : float :=
  Math_round (3.12476 * Number width + 0.196661)%float.

(** ** Paths ([path.join], [path.dirname], [path.basename] on the normalised
    paths that [process.cwd()] and [glob] produce) *)

Local Open Scope string_scope.

Definition path_join (dir file : string) : string :=
  if decide (dir = "/") then "/" +:+ file else dir +:+ "/" +:+ file.

Fixpoint split_last_slash (seen : chars) (p : chars) (last : option (chars * chars))
    : option (chars * chars) :=
  match p with
  | [] => last
  | c :: p' =>
      split_last_slash (c :: seen) p'
        (if ascii_eqb c "/" then Some (rev seen, p') else last)
  end.

Definition path_basename (p : string) : string :=
  match split_last_slash [] (str p) None with
  | Some (_, base) => unstr base
  | None => p
  end.

Definition path_dirname (p : string) : string :=
  match split_last_slash [] (str p) None with
  | Some ([], _) => "/"
  | Some (dir, _) => unstr dir
  | None => "."
  end.

(** ** The world: file system, browser, console *)

Record file : Type := File {
  data : string;
  readable : bool;
  writable : bool
}.

Inductive error : Type :=
| ENOENT (path : string)
| EACCES (path : string)
| GlobError
| BrowserError
| RegExpError.

Inductive console_line : Type :=
| LogSearchingReferences (originalName : string)
| LogUpdatingReferences (file : string)
| ErrorProcessing (file : string) (e : error)      (* console.error *)
| LogProcessing (name : string)
| LogConverting
| LogCompressing
| LogKeepingSvg (avifSize svgSize : nat)
| LogReplacing (avifSize svgSize : nat)
| LogCompleted (name : string)
| LogDeleting (name : string)
| LogCurrentDirectory (dir : string)
| LogSearchingSvg
| LogFound (count : nat)
| LogAnalyzing
| LogValid (count : nat)
| LogAllProcessed
| ErrorTop (e : error).                            (* console.error *)

Record world : Type := World {
  fs : gmap string file;
  browser_open : bool;
  context_open : bool;
  console : list console_line            (* last line first *)
}.

(** What the program does not control during one conversion: the browser,
    the two web tools, [glob], and the regular expressions outside the
    embedded fragment. *)
Record host : Type := Host {
  currentDir : string;                                (* [process.cwd()] *)
  launch_ok : bool;
  newContext_ok : bool;
  newPage_ok : bool;
  (* the AVIF downloaded from the converter for an uploaded SVG and a width;
     [None]: an interaction fails or times out *)
  convert_tool : string -> float -> option string;
  (* the AVIF downloaded from the compressor *)
  compress_tool : string -> option string;
  (* the results of [glob] over the SVG files and over the text files;
     [None]: it rejects *)
  svg_files : option (list string);
  text_files : option (list string);
  (* [content.replace(new RegExp(pattern, "g"), replacement)] for a pattern
     outside the embedded fragment; [None]: it throws *)
  regexp_beyond : string -> string -> string -> option string;
  context_close_ok : bool;
  browser_close_ok : bool
}.

Inductive result (A : Type) : Type :=
| Ok (a : A)
| Raise (e : error).
Arguments Ok {A} a.
Arguments Raise {A} e.

Definition M (A : Type) : Type := world -> result A * world.

Definition ret {A} (a : A) : M A := fun w => (Ok a, w).
Definition raise {A} (e : error) : M A := fun w => (Raise e, w).
Definition bind {A B} (m : M A) (k : A -> M B) : M B :=
  fun w => match m w with
           | (Ok a, w') => k a w'
           | (Raise e, w') => (Raise e, w')
           end.
(** [try { m } catch (error) { handler(error) }] *)
Definition try_catch {A} (m : M A) (handler : error -> M A) : M A :=
  fun w => match m w with
           | (Ok a, w') => (Ok a, w')
           | (Raise e, w') => handler e w'
           end.

Notation "'let!' x ':=' m 'in' k" := (bind m (fun x => k))
  (at level 10, x name, m at level 100, k at level 200).
Notation "m ';;;' k" := (bind m (fun _ => k))
  (at level 100, k at level 200, right associativity).

Fixpoint for_of {A} (l : list A) (body : A -> M unit) : M unit :=
  match l with
  | [] => ret tt
  | a :: l' => body a ;;; for_of l' body
  end.

(** [await Promise.all(l.map(f))] for an [f] that only reads. *)
Fixpoint map_all {A B} (l : list A) (f : A -> M B) : M (list B) :=
  match l with
  | [] => ret []
  | a :: l' => let! b := f a in let! bs := map_all l' f in ret (b :: bs)
  end.

Definition log (line : console_line) : M unit :=
  fun w => (Ok tt, World (fs w) (browser_open w) (context_open w) (line :: console w)).

Definition set_fs (f : gmap string file) (w : world) : world :=
  World f (browser_open w) (context_open w) (console w).

(** [fs.readFile(path, "utf8")] *)
Definition readFile (path : string) : M string :=
  fun w => match fs w !! path with
           | Some f => if readable f then (Ok (data f), w) else (Raise (EACCES path), w)
           | None => (Raise (ENOENT path), w)
           end.

(** [fs.writeFile(path, content, "utf8")] and [download.saveAs(path)] *)
Definition writeFile (path : string) (content : string) : M unit :=
  fun w => match fs w !! path with
           | Some f =>
               if writable f
               then (Ok tt, set_fs (<[path := File content (readable f) true]> (fs w)) w)
               else (Raise (EACCES path), w)
           | None => (Ok tt, set_fs (<[path := File content true true]> (fs w)) w)
           end.

(** [(await fs.stat(path)).size] *)
Definition stat_size (path : string) : M nat :=
  fun w => match fs w !! path with
           | Some f => (Ok (String.length (data f)), w)
           | None => (Raise (ENOENT path), w)
           end.

(** [fs.unlink(path)] *)
Definition unlink (path : string) : M unit :=
  fun w => match fs w !! path with
           | Some _ => (Ok tt, set_fs (delete path (fs w)) w)
           | None => (Raise (ENOENT path), w)
           end.

Definition guard (ok : bool) (e : error) : M unit :=
  if ok then ret tt else raise e.

Definition launch (h : host) : M unit :=
  guard (launch_ok h) BrowserError ;;;
  fun w => (Ok tt, World (fs w) true (context_open w) (console w)).

Definition newContext (h : host) : M unit :=
  guard (newContext_ok h) BrowserError ;;;
  fun w => (Ok tt, World (fs w) (browser_open w) true (console w)).

Definition newPage (h : host) : M unit :=
  guard (newPage_ok h) BrowserError.

Definition context_close (h : host) : M unit :=
  guard (context_close_ok h) BrowserError ;;;
  fun w => (Ok tt, World (fs w) (browser_open w) false (console w)).

Definition browser_close (h : host) : M unit :=
  guard (browser_close_ok h) BrowserError ;;;
  fun w => (Ok tt, World (fs w) false false (console w)).

(** The answer of a web tool: a download, or a failed interaction. *)
Definition download (answer : option string) : M string :=
  match answer with
  | Some bytes => ret bytes
  | None => raise BrowserError
  end.

(** ** [updateReferences] (lines 19-44, and 196-221) *)

(** [content.replace(new RegExp(originalName, "g"), newName)]: the updated
    content, or [None] when it throws. *)
Definition replace_result (h : host) (content originalName newName : string)
    : option string :=
  match replace_regexp (str content) (str originalName) (str newName) with
  | Returns updated => Some (unstr updated)
  | Throws => None
  | Unmodelled => regexp_beyond h content originalName newName
  end.

Definition replace_all (h : host) (content originalName newName : string) : M string :=
  match replace_result h content originalName newName with
  | Some updated => ret updated
  | None => raise RegExpError
  end.

Definition update_file (h : host) (originalName newName : string) (file : string)
    : M unit :=
  let filePath := path_join (currentDir h) file in
  try_catch
    (let! content := readFile filePath in
     if includes (str content) (str originalName) then
       log (LogUpdatingReferences file) ;;;
       let! updatedContent := replace_all h content originalName newName in
       writeFile filePath updatedContent
     else ret tt)
    (fun e => log (ErrorProcessing file e)).

Definition glob_text (h : host) : M (list string) :=
  match text_files h with
  | Some files => ret files
  | None => raise GlobError
  end.

Definition glob_svg (h : host) : M (list string) :=
  match svg_files h with
  | Some files => ret files
  | None => raise GlobError
  end.

Definition updateReferences (h : host) (originalName newName : string) : M unit :=
  log (LogSearchingReferences originalName) ;;;
  let! textFiles := glob_text h in
  for_of textFiles (update_file h originalName newName).

(** ** Candidates *)

Record candidate : Type := Candidate {
  path : string;
  dir : string;
  name : string;
  content : string;
  width : float
}.

(** [s.replace(".svg", ".avif")] *)
Definition svg_to_avif (s : string) : string :=
  unstr (replace_string (str s) (str ".svg") (str ".avif")).

(** [/<svg width="(.*?)"/.exec(content)?.[1]]: [None] stands for
    [undefined]. *)
Definition svg_width_pattern : chars :=
  str "<svg width=" ++ ["034"%char] ++ str "(.*?)" ++ ["034"%char].

Definition declared_width (content : string) : option string :=
  match exec_pattern svg_width_pattern (str content) with
  | Returns (Some m) =>
      match m_captures m !! 0 with
      | Some (Some w) => Some (unstr w)
      | _ => None
      end
  | _ => None
  end.

(** [!width] *)
Definition falsy (width : option string) : bool :=
  match width with
  | None | Some "" => true
  | Some _ => false
  end.

(** The object literal that [main] returns for a selected file. *)
Definition make_candidate (cwd file content width : string) : candidate :=
  let filePath := path_join cwd file in
  {| path := filePath;
     dir := path_dirname filePath;
     name := path_basename file;
     content := content;
     width := target_width (str width) |}.

(** The session of [convert] up to the compressed download (lines 47-95 and
    224-272): the artifact is saved at [avifPath], twice. *)
Definition conversion_session (h : host) (file : candidate) : M string :=
  log (LogProcessing (name file)) ;;;
  launch h ;;;
  newContext h ;;;
  newPage h ;;;
  let avifPath := path_join (dir file) (svg_to_avif (name file)) in
  log LogConverting ;;;
  let! upload := readFile (path file) in
  let! avif := download (convert_tool h upload (width file)) in
  writeFile avifPath avif ;;;
  log LogCompressing ;;;
  let! upload2 := readFile avifPath in
  let! compressed := download (compress_tool h upload2) in
  writeFile avifPath compressed ;;;
  ret avifPath.

(** The two outcomes of the size test of line 101, named as in the spec. *)
Inductive Decision : Type := KeepArtifact | KeepOriginal.

(** ** The first version: size threshold and size gate *)
Module SizeGated.

(** The body of [files.map(async (file) => ...)] (lines 135-160), on the
    size and content that [fs.stat] and [fs.readFile] return. *)
Definition select (cwd file : string) (size : nat) (content : string)
    : option candidate :=
  if (size <? 10 * 1024)%nat then None
  else
    let width := declared_width content in
    if falsy width then None
    else Some (make_candidate cwd file content (default "" width)).

(** [avifStats.size >= svgStats.size] (line 101) *)
Definition gate (avifSize svgSize : nat) : Decision :=
  if (svgSize <=? avifSize)%nat then KeepOriginal else KeepArtifact.

(** Lines 97-121. *)
Definition settle (h : host) (file : candidate) (avifPath : string) : M unit :=
  let! avifSize := stat_size avifPath in
  let! svgSize := stat_size (path file) in
  match gate avifSize svgSize with
  | KeepOriginal =>
      log (LogKeepingSvg avifSize svgSize) ;;;
      unlink avifPath ;;;
      context_close h ;;;
      browser_close h
  | KeepArtifact =>
      log (LogReplacing avifSize svgSize) ;;;
      let originalName := name file in
      let newName := svg_to_avif originalName in
      updateReferences h originalName newName ;;;
      log (LogCompleted (name file)) ;;;
      context_close h ;;;
      browser_close h ;;;
      log (LogDeleting (name file)) ;;;
      unlink (path file)
  end.

Definition convert (h : host) (file : candidate) : M unit :=
  let! avifPath := conversion_session h file in
  settle h file avifPath.

Definition analyze (h : host) (file : string) : M (option candidate) :=
  let filePath := path_join (currentDir h) file in
  let! size := stat_size filePath in
  let! content := readFile filePath in
  ret (select (currentDir h) file size content).

(** Lines 124-169. *)
Definition main (h : host) : M unit :=
  log LogSearchingSvg ;;;
  let! files := glob_svg h in
  log (LogFound (length files)) ;;;
  log LogAnalyzing ;;;
  let! analyzed := map_all files (analyze h) in
  let svgFiles := omap id analyzed in
  log (LogValid (length svgFiles)) ;;;
  for_of svgFiles (convert h) ;;;
  log LogAllProcessed.

(** Lines 15-17 and 171-177: the exit code of the process. *)
Definition run (h : host) (w : world) : nat * world :=
  match (log (LogCurrentDirectory (currentDir h)) ;;; main h) w with
  | (Ok _, w') => (0, w')
  | (Raise e, w') => (1, (log (ErrorTop e) w').2)
  end.

End SizeGated.

(** ** The second version: embedded raster image, no gate *)
Module RasterOnly.

(** [/<image/.test(content)] *)
Definition has_image (content : string) : bool :=
  match exec_pattern (str "<image") (str content) with
  | Returns (Some _) => true
  | _ => false
  end.

(** Lines 299-318. *)
Definition select (cwd file : string) (content : string) : option candidate :=
  let width := declared_width content in
  let image := has_image content in
  if falsy width || negb image then None
  else Some (make_candidate cwd file content (default "" width)).

(** Lines 274-285. *)
Definition settle (h : host) (file : candidate) : M unit :=
  let originalName := name file in
  let newName := svg_to_avif originalName in
  updateReferences h originalName newName ;;;
  log (LogCompleted (name file)) ;;;
  context_close h ;;;
  browser_close h ;;;
  log (LogDeleting (name file)) ;;;
  unlink (path file).

Definition convert (h : host) (file : candidate) : M unit :=
  let! _ := conversion_session h file in
  settle h file.

Definition analyze (h : host) (file : string) : M (option candidate) :=
  let filePath := path_join (currentDir h) file in
  let! content := readFile filePath in
  ret (select (currentDir h) file content).

(** Lines 288-327. *)
Definition main (h : host) : M unit :=
  log LogSearchingSvg ;;;
  let! files := glob_svg h in
  log (LogFound (length files)) ;;;
  log LogAnalyzing ;;;
  let! analyzed := map_all files (analyze h) in
  let svgFiles := omap id analyzed in
  log (LogValid (length svgFiles)) ;;;
  for_of svgFiles (convert h) ;;;
  log LogAllProcessed.

(** Lines 192-194 and 329-335: the exit code of the process. *)
Definition run (h : host) (w : world) : nat * world :=
  match (log (LogCurrentDirectory (currentDir h)) ;;; main h) w with
  | (Ok _, w') => (0, w')
  | (Raise e, w') => (1, (log (ErrorTop e) w').2)
  end.

End RasterOnly.

(** ** Matchers and the input

    [ahead x y]: the state [y] is [x] after some more input was consumed. *)
Definition ahead (x y : mstate) : Prop :=
  exists consumed,
    rest x = (consumed ++ rest y)%list /\ endIndex y = (endIndex x + length consumed)%nat.

(** A matcher calls its continuation on states ahead only. *)
Definition forward (m : mstate -> (mstate -> option mstate) -> option mstate) : Prop :=
  forall x c c', (forall y, ahead x y -> c y = c' y) -> m x c = m x c'.

(** ** The pattern of the width attribute, parsed *)

(** The literal start of the pattern, up to the opening double quote. *)
Definition width_prefix : chars := str "<svg width=" ++ ["034"%char].

Definition svg_width_regex : regex :=
  Seq (Seq (alternative (rev (Char <$> width_prefix)))
           (Group 0 (Seq Empty (Quant 0 None false Dot))))
      (Char "034").

(** A width value that the pattern captures whole: no double quote and no
    line terminator. *)
Definition plain_value (v : chars) : Prop :=
  Forall (fun a => ascii_eqb a "034" = false /\ line_terminator a = false) v.

(** ** The width formula in exact arithmetic

    From the spec's words, for comparison with [target_width]:
    [round(3.12476 * W + 0.196661)] for an integer [W], with [round] the
    nearest integer, halves going up, that is the floor of
    [(3124760 * W + 196661) / 1000000 + 1/2]. *)
Definition rounded_exact (W : Z) : Z :=
  ((2 * (3124760 * W + 196661) + 1000000) / 2000000)%Z.

(** The decimal numeral of a natural number. *)
Definition decimal (W : Z) : string :=
  NilZero.string_of_uint (N.to_uint (Z.to_N W)).

(** The number with an integer value. *)
Definition float_of_Z (z : Z) : float :=
  SF2Prim (binary_normalize prec emax z 0 false).

Definition width_agrees (W : Z) : bool :=
  PrimFloat.Leibniz.eqb (target_width (str (decimal W))) (float_of_Z (rounded_exact W)).

Fixpoint all_from (count : nat) (W : Z) : bool :=
  match count with
  | 0 => true
  | S count' => width_agrees W && all_from count' (W + 1)
  end.

(** ** Specifications of effectful code

    [triple P m Q E]: from a world in [P], [m] returns in [Q] or raises in
    [E]. *)
Definition triple {A} (P : world -> Prop) (m : M A)
    (Q : A -> world -> Prop) (E : error -> world -> Prop) : Prop :=
  forall w, P w ->
    match m w with
    | (Ok a, w') => Q a w'
    | (Raise e, w') => E e w'
    end.

(** [m] keeps the invariant [I], however it ends. *)
Definition keeps {A} (I : world -> Prop) (m : M A) : Prop :=
  triple I m (fun _ => I) (fun _ => I).

Definition anything {A} : A -> world -> Prop := fun _ _ => True.

Definition closed (w : world) : Prop :=
  browser_open w = false /\ context_open w = false.

(** ** What a run leaves behind *)

Definition present (p : string) (w : world) : Prop := is_Some (fs w !! p).

(** The sizes that the gate compares, when the session completes. *)
Definition session_sizes (h : host) (file : candidate) (w : world) : option (nat * nat) :=
  match conversion_session h file w with
  | (Ok avifPath, w1) =>
      match fs w1 !! avifPath, fs w1 !! path file with
      | Some avif, Some svg => Some (String.length (data avif), String.length (data svg))
      | _, _ => None
      end
  | (Raise _, _) => None
  end.

(** [updateReferences] returns without raising. *)
Definition rewrite_completes (h : host) : Prop :=
  forall originalName newName w, (updateReferences h originalName newName w).1 = Ok tt.

(** What one round of the loop of [updateReferences] makes of a file. *)
Definition rewritten (h : host) (originalName newName : string) (f : file) : file :=
  if readable f && includes (str (data f)) (str originalName) then
    match replace_result h (data f) originalName newName with
    | Some updated => if writable f then File updated (readable f) true else f
    | None => f
    end
  else f.

(** The file system after the rounds for [files]. *)
Definition rounds (h : host) (originalName newName : string) (files : list string)
    (m : gmap string file) : gmap string file :=
  foldl (fun m f => alter (rewritten h originalName newName)
                      (path_join (currentDir h) f) m) m files.

(** The round for a file fails: it cannot be read, or it contains the name
    and the replacement throws or the file cannot be written. *)
Definition round_fails (h : host) (originalName newName : string) (f : option file)
    : bool :=
  match f with
  | None => true
  | Some f =>
      negb (readable f) ||
      (includes (str (data f)) (str originalName) &&
       match replace_result h (data f) originalName newName with
       | Some _ => negb (writable f)
       | None => true
       end)
  end.

(** From the spec's words, for comparison with [replace_regexp]: every
    literal occurrence of [originalName] is replaced by [newName], from left
    to right, and nothing else changes. *)
Fixpoint replace_every_literal (fuel : nat) (s originalName newName : chars) : chars :=
  match fuel with
  | 0 => s
  | S fuel' =>
      match originalName, s with
      | [], _ | _, [] => s
      | _, c :: s' =>
          if startsWith originalName s
          then newName ++ replace_every_literal fuel' (drop (length originalName) s)
                            originalName newName
          else c :: replace_every_literal fuel' s' originalName newName
      end
  end.

Definition replace_literally (content originalName newName : string) : string :=
  unstr (replace_every_literal (S (String.length content)) (str content)
           (str originalName) (str newName)).

(** ** File names whose only special character is the dot *)

(** The characters that [parse] does not read as literal characters. *)
Definition syntax_character (c : ascii) : bool :=
  ascii_eqb c "\" || ascii_eqb c "[" || ascii_eqb c "{" || ascii_eqb c "(" ||
  ascii_eqb c ")" || ascii_eqb c "|" || ascii_eqb c "*" || ascii_eqb c "+" ||
  ascii_eqb c "?" || ascii_eqb c "^" || ascii_eqb c "$" || ascii_eqb c ".".

Definition dotted_name (p : chars) : bool :=
  forallb (fun c => ascii_eqb c "." || negb (syntax_character c)) p.

(** The term that [parse] makes of a character of such a name. *)
Definition name_term (c : ascii) : regex :=
  if ascii_eqb c "." then Dot else Char c.

(** [s] starts with [p], up to the dots of [p]: a dot of [p] stands for any
    character that is no line terminator. *)
Fixpoint startsAlike (p s : chars) : bool :=
  match p, s with
  | [], _ => true
  | a :: p', b :: s' =>
      (if ascii_eqb a "." then negb (line_terminator b) else ascii_eqb b a) &&
      startsAlike p' s'
  | _ :: _, [] => false
  end.

(** Every stretch of [s] that is [originalName] up to its dots is replaced by
    [newName], from left to right. *)
Fixpoint replace_every_alike (fuel : nat) (s originalName newName : chars) : chars :=
  match fuel with
  | 0 => s
  | S fuel' =>
      match originalName, s with
      | [], _ | _, [] => s
      | _, c :: s' =>
          if startsAlike originalName s
          then newName ++ replace_every_alike fuel' (drop (length originalName) s)
                            originalName newName
          else c :: replace_every_alike fuel' s' originalName newName
      end
  end.

Definition replace_alike (content originalName newName : string) : string :=
  unstr (replace_every_alike (S (String.length content)) (str content)
           (str originalName) (str newName)).

(** ** The artifact and what stays

    [avifPath] of [convert] (lines 53 and 230). *)
Definition avifPath (file : candidate) : string :=
  path_join (dir file) (svg_to_avif (name file)).

(** The file system after the steps of [convert] behind an accepted
    artifact with the content [compressed]: the references are rewritten and
    the original is removed. *)
Definition settled (h : host) (m : gmap string file) (file : candidate)
    (files : list string) (compressed : string) :=
  delete (path file)
    (rounds h (name file) (svg_to_avif (name file)) files
       (<[avifPath file := File compressed true true]> m)).

(** The path [p] holds [v]. *)
Definition holds (p : string) (v : option file) (w : world) : Prop :=
  fs w !! p = v.

(** ** Sample inputs *)

Definition dquote : string := unstr ["034"%char].

(** [<svg width="W"><image/></svg>] *)
Definition svg_with_width (W : string) : string :=
  "<svg width=" +:+ dquote +:+ W +:+ dquote +:+ "><image/></svg>".

(** A host whose tools answer [converted] and [compressed], and whose
    browser context closes without error when [closing] holds. *)
Definition sample_host_with (converted compressed : option string) (closing : bool)
    : host :=
  {| currentDir := "/proj";
     launch_ok := true; newContext_ok := true; newPage_ok := true;
     convert_tool := fun _ _ => converted;
     compress_tool := fun _ => compressed;
     svg_files := Some ["logo.svg"];
     text_files := Some ["index.html"; "locked.css"; "readme.md"];
     regexp_beyond := fun _ _ _ => None;
     context_close_ok := closing; browser_close_ok := true |}.

Definition large_avif : string := "AVIF-AVIF-AVIF-AVIF-AVIF-AVIF-AVIF-AVIF-".

Definition sample_host : host := sample_host_with (Some large_avif) (Some "avif") true.

(** The compressor returns an artifact larger than the SVG. *)
Definition bloating_host : host :=
  sample_host_with (Some large_avif) (Some large_avif) true.

(** The converter never answers. *)
Definition stalling_host : host := sample_host_with None None true.

(** Closing the browser context fails. *)
Definition unclosable_host : host :=
  sample_host_with (Some large_avif) (Some "avif") false.

(** The compressor never answers. *)
Definition failing_compressor_host : host :=
  sample_host_with (Some large_avif) None true.

Definition sample_candidate (file : string) : candidate :=
  make_candidate "/proj" file (svg_with_width "100") "100".

Definition sample_world (svg : string) (html : string) : world :=
  {| fs := {[ "/proj/" +:+ svg := File (svg_with_width "100") true true;
              "/proj/index.html" := File html true true;
              "/proj/locked.css" := File "url(logo.svg)" false true;
              "/proj/readme.md" := File "see logo.svg" true true ]};
     browser_open := false; context_open := false; console := [] |}.

(** A project with an SVG of 12 KB, and hosts whose compressor returns 6 KB
    and 15 KB. *)
Definition padding (n : nat) : string := unstr (replicate n " "%char).

Definition large_svg : string := svg_with_width "320" +:+ padding 12000.

Definition large_world : world :=
  set_fs (<["/proj/logo.svg" := File large_svg true true]>
            (fs (sample_world "logo.svg" "<img src='logo.svg'>")))
    (sample_world "logo.svg" "<img src='logo.svg'>").

Definition halving_host : host :=
  sample_host_with (Some (padding 20000)) (Some (padding 6000)) true.

Definition growing_host : host :=
  sample_host_with (Some (padding 20000)) (Some (padding 15000)) true.

(** ** Lemmas *)

Local Close Scope string_scope.

Lemma str_unstr (l : chars) : str (unstr l) = l.
Proof. apply list_ascii_of_string_of_list_ascii. Qed.

Lemma unstr_str (s : string) : unstr (str s) = s.
Proof. apply string_of_list_ascii_of_string. Qed.

Lemma length_unstr (l : chars) : String.length (unstr l) = length l.
Proof. induction l as [|a l IH]; simpl; [reflexivity | now rewrite IH]. Qed.

Lemma length_str (s : string) : length (str s) = String.length s.
Proof. now rewrite <- (unstr_str s) at 2; rewrite length_unstr. Qed.

(** *** The bound on the rounds of a quantifier is never reached *)

Lemma ahead_refl (x : mstate) : ahead x x.
Proof. exists []. split; [reflexivity | cbn; lia]. Qed.

Lemma ahead_trans (x y z : mstate) : ahead x y -> ahead y z -> ahead x z.
Proof.
  intros (c1 & H1 & I1) (c2 & H2 & I2). exists (c1 ++ c2). split.
  - now rewrite H1, H2, app_assoc.
  - rewrite length_app. lia.
Qed.

Lemma ahead_length (x y : mstate) :
  ahead x y ->
  (length (rest y) <= length (rest x))%nat /\
  (endIndex y = endIndex x -> length (rest y) = length (rest x)) /\
  (endIndex y <> endIndex x -> length (rest y) < length (rest x))%nat.
Proof.
  intros (c & H & I). rewrite H, length_app. repeat split; lia.
Qed.

Section RepeatMatcher.

Variable m : mstate -> (mstate -> option mstate) -> option mstate.
Variable gs : list nat.
Variable greedy : bool.
Hypothesis m_forward : forward m.

(** The continuation [d] of RepeatMatcher that starts the next round. *)
Let next_round (fuel min : nat) (max : option nat) (x : mstate)
    (c : mstate -> option mstate) : mstate -> option mstate :=
  fun y => if (min =? 0) && (endIndex y =? endIndex x) then None
           else repeatMatcher m gs greedy fuel (pred min) (option_map pred max) y c.

Let cleared (x : mstate) : mstate :=
  MState (rest x) (endIndex x) (clear_captures gs (captures x)).

Lemma repeatMatcher_forward (fuel min : nat) (max : option nat) :
  forward (fun x c => repeatMatcher m gs greedy fuel min max x c).
Proof.
  revert min max. induction fuel as [|fuel IH]; intros min max x c c' Hc;
    [reflexivity|].
  cbn [repeatMatcher]. rewrite (Hc x (ahead_refl x)).
  assert (Hd : m (cleared x) (next_round fuel min max x c) =
               m (cleared x) (next_round fuel min max x c')).
  { apply m_forward. intros y Hy. unfold next_round.
    destruct ((min =? 0) && (endIndex y =? endIndex x)); [reflexivity|].
    apply IH. intros z Hz. apply Hc. eapply ahead_trans; [exact Hy | exact Hz]. }
  unfold cleared, next_round in Hd. rewrite Hd. reflexivity.
Qed.

(** With more rounds allowed than [min + length (rest x)], the result does
    not depend on how many: the matcher never stops for lack of rounds. *)
Lemma repeatMatcher_fuel (fuel1 fuel2 min : nat) (max : option nat) (x : mstate)
    (c : mstate -> option mstate) :
  (min + length (rest x) < fuel1)%nat ->
  (min + length (rest x) < fuel2)%nat ->
  repeatMatcher m gs greedy fuel1 min max x c =
  repeatMatcher m gs greedy fuel2 min max x c.
Proof.
  revert fuel2 min max x c.
  induction fuel1 as [|fuel1 IH]; intros fuel2 min max x c H1 H2; [lia|].
  destruct fuel2 as [|fuel2]; [lia|].
  cbn [repeatMatcher].
  assert (Hd : m (cleared x) (next_round fuel1 min max x c) =
               m (cleared x) (next_round fuel2 min max x c)).
  { apply m_forward. intros y Hy. unfold next_round.
    apply ahead_length in Hy as (Hle & _ & Hlt).
    cbn [cleared rest endIndex] in Hle, Hlt.
    destruct (Nat.eqb_spec min 0) as [->|Hmin]; cbn [andb].
    - destruct (Nat.eqb_spec (endIndex y) (endIndex x)) as [|Hne]; [reflexivity|].
      specialize (Hlt Hne). apply IH; cbn [pred Nat.add] in *; lia.
    - apply IH; lia. }
  unfold cleared, next_round in Hd. rewrite Hd. reflexivity.
Qed.

End RepeatMatcher.

Lemma matcher_forward (r : regex) : forward (matcher r).
Proof.
  induction r as [| a | | | | r1 IH1 r2 IH2 | r1 IH1 r2 IH2 | min max greedy r IH | i r IH];
    intros x c c' Hc; cbn [matcher].
  - apply Hc, ahead_refl.
  - destruct (rest x) as [|ch tl] eqn:Hr; [reflexivity|].
    destruct (ascii_eqb ch a); [|reflexivity].
    apply Hc. exists [ch]. cbn. split; [exact Hr | lia].
  - destruct (rest x) as [|ch tl] eqn:Hr; [reflexivity|].
    destruct (line_terminator ch); [reflexivity|].
    apply Hc. exists [ch]. cbn. split; [exact Hr | lia].
  - destruct (endIndex x =? 0); [apply Hc, ahead_refl | reflexivity].
  - destruct (rest x); [apply Hc, ahead_refl | reflexivity].
  - apply IH1. intros y Hy. apply IH2. intros z Hz. apply Hc.
    eapply ahead_trans; [exact Hy | exact Hz].
  - rewrite (IH1 x c c' Hc), (IH2 x c c' Hc). reflexivity.
  - now apply (repeatMatcher_forward (matcher r) (groups_of r) greedy IH).
  - apply IH. intros y Hy. apply Hc.
    destruct Hy as (cs & H1 & H2). now exists cs.
Qed.

(** The bound that [matcher] gives a quantifier is as good as any larger
    one. *)
Lemma quantifier_rounds (min : nat) (max : option nat) (greedy : bool) (r : regex)
    (x : mstate) (c : mstate -> option mstate) (extra : nat) :
  matcher (Quant min max greedy r) x c =
  repeatMatcher (matcher r) (groups_of r) greedy
    (S (min + length (rest x)) + extra) min max x c.
Proof.
  cbn [matcher]. apply repeatMatcher_fuel; [apply matcher_forward | lia | lia].
Qed.

(** *** Literal prefixes of a pattern *)

Lemma ascii_eqb_eq (a b : ascii) : ascii_eqb a b = true <-> a = b.
Proof. apply Ascii.eqb_eq. Qed.

Lemma ascii_eqb_sym (a b : ascii) : ascii_eqb a b = ascii_eqb b a.
Proof. apply Ascii.eqb_sym. Qed.

Lemma startsWith_snoc (p : chars) (a : ascii) (s : chars) :
  startsWith (p ++ [a]) s =
  startsWith p s &&
  match drop (length p) s with
  | ch :: _ => ascii_eqb ch a
  | [] => false
  end.
Proof.
  revert s. induction p as [|b p IH]; intros [|c s]; simpl; try reflexivity.
  - now rewrite andb_true_r, ascii_eqb_sym.
  - now rewrite IH, andb_assoc.
Qed.

Lemma startsWith_app (p s : chars) : startsWith p (p ++ s) = true.
Proof.
  induction p as [|a p IH]; simpl; [reflexivity|].
  rewrite IH, andb_true_r. now apply ascii_eqb_eq.
Qed.

Lemma startsWith_true (p s : chars) :
  startsWith p s = true -> s = p ++ drop (length p) s.
Proof.
  revert s. induction p as [|a p IH]; intros [|c s]; simpl; try easy.
  intros [Hac Hp]%andb_true_iff. apply ascii_eqb_eq in Hac. subst c.
  f_equal. now apply IH.
Qed.

(** The matcher of a run of literal characters consumes exactly that run. *)
Lemma matcher_literal (p : chars) (x : mstate) (c : mstate -> option mstate) :
  matcher (alternative (rev (Char <$> p))) x c =
  if startsWith p (rest x)
  then c (MState (drop (length p) (rest x)) (endIndex x + length p) (captures x))
  else None.
Proof.
  revert x c. induction p as [|a p IH] using rev_ind; intros x c.
  - simpl. rewrite Nat.add_0_r. now destruct x.
  - rewrite fmap_app, rev_app_distr. simpl. rewrite IH, startsWith_snoc.
    destruct (startsWith p (rest x)); simpl; [|reflexivity].
    rewrite length_app. simpl.
    destruct (drop (length p) (rest x)) as [|ch tl] eqn:Hd; [reflexivity|].
    destruct (ascii_eqb ch a); [|reflexivity].
    f_equal. f_equal; [|lia].
    rewrite Nat.add_1_r. change (S (length p)) with (1 + length p).
    rewrite Nat.add_comm, <- drop_drop, Hd. reflexivity.
Qed.

(** *** The width attribute *)

Lemma RegExp_svg_width : RegExp svg_width_pattern = Compiled (svg_width_regex, 1).
Proof. reflexivity. Qed.

Lemma match_at_no_prefix (idx : nat) (s : chars) :
  startsWith width_prefix s = false -> match_at svg_width_regex 1 idx s = None.
Proof.
  intros H. unfold match_at, svg_width_regex. cbn [matcher].
  rewrite matcher_literal. cbn [rest]. now rewrite H.
Qed.

Lemma indexOf_None (p s : chars) :
  indexOf p s = None ->
  startsWith p s = false /\ match s with [] => True | _ :: s' => indexOf p s' = None end.
Proof.
  destruct s as [|c s]; simpl.
  - destruct (startsWith p []); [discriminate | easy].
  - destruct (startsWith p (c :: s)); [discriminate|].
    destruct (indexOf p s); [discriminate | easy].
Qed.

Lemma exec_no_prefix (s : chars) (idx : nat) :
  indexOf width_prefix s = None -> exec svg_width_regex 1 idx s = None.
Proof.
  revert idx. induction s as [|c s IH]; intros idx H;
    apply indexOf_None in H as [Hs Ht]; cbn [exec];
    rewrite match_at_no_prefix by exact Hs.
  - reflexivity.
  - now apply IH.
Qed.

(** The lazy [.*?] stops at the first position where the rest of the pattern
    matches. *)
Lemma lazy_dot_star (v t : chars) (fuel i : nat) (caps : list (option chars))
    (c : mstate -> option mstate) (z : mstate) :
  (length v < fuel)%nat ->
  Forall (fun a => line_terminator a = false) v ->
  (forall v1 a v2, v = v1 ++ a :: v2 ->
     c (MState (a :: v2 ++ t) (i + length v1) caps) = None) ->
  c (MState t (i + length v) caps) = Some z ->
  repeatMatcher (matcher Dot) [] false fuel 0 None (MState (v ++ t) i caps) c = Some z.
Proof.
  revert fuel i. induction v as [|a v IH]; intros fuel i Hfuel Hlt Hc Hz.
  - destruct fuel as [|fuel]; [lia|]. simpl in *. rewrite Nat.add_0_r in Hz.
    now rewrite Hz.
  - destruct fuel as [|fuel]; [simpl in Hfuel; lia|].
    inversion Hlt as [|? ? Ha Hv]; subst.
    cbn [repeatMatcher]. cbn [Nat.eqb negb andb clear_captures fold_left rest endIndex captures].
    pose proof (Hc [] a v eq_refl) as H0. cbn [length app] in H0.
    rewrite Nat.add_0_r in H0. cbn [app]. rewrite H0. cbn [orElse matcher rest].
    rewrite Ha. cbn [endIndex captures].
    replace (S i =? i) with false by (symmetry; apply Nat.eqb_neq; lia).
    cbn [pred option_map].
    apply IH.
    + simpl in Hfuel. lia.
    + exact Hv.
    + intros v1 b v2 ->. specialize (Hc (a :: v1) b v2 eq_refl).
      cbn [length] in Hc. now rewrite Nat.add_succ_r in Hc.
    + cbn [length] in Hz. now rewrite Nat.add_succ_r in Hz.
Qed.

Lemma match_at_value (v post : chars) (idx : nat) :
  plain_value v ->
  match_at svg_width_regex 1 idx (width_prefix ++ v ++ "034"%char :: post) =
  Some (MatchResult idx (S (idx + length width_prefix + length v)) [Some v]).
Proof.
  intros Hv. unfold match_at, svg_width_regex. cbn [matcher].
  rewrite matcher_literal. cbn [rest endIndex captures].
  rewrite startsWith_app, drop_app_length.
  cbn [groups_of Nat.add].
  rewrite (lazy_dot_star v ("034"%char :: post) _ _ _ _
             (MState post (S (idx + length width_prefix + length v)) [Some v])).
  - reflexivity.
  - rewrite length_app. lia.
  - eapply Forall_impl; [exact Hv|]. now intros a [_ Ha].
  - intros v1 a v2 ->. cbn [rest endIndex captures].
    apply Forall_app in Hv as [_ Hv]. inversion Hv as [|? ? [Ha _] _]; subst.
    now rewrite Ha.
  - cbn [rest endIndex captures]. rewrite Ascii.eqb_refl.
    replace (idx + length width_prefix + length v - (idx + length width_prefix))
      with (length v) by lia.
    rewrite take_app_length. reflexivity.
Qed.

Lemma indexOf_first (p pre s : chars) :
  indexOf p (pre ++ s) = Some (length pre) ->
  forall pre1 c pre2, pre = pre1 ++ c :: pre2 -> startsWith p (c :: pre2 ++ s) = false.
Proof.
  revert s. induction pre as [|a pre IH]; intros s H pre1 c pre2 Heq.
  - now destruct pre1.
  - cbn [app indexOf length] in H.
    destruct (startsWith p (a :: pre ++ s)) eqn:Hs; [discriminate|].
    destruct (indexOf p (pre ++ s)) as [i|] eqn:Hi; [|discriminate].
    destruct pre1 as [|b pre1]; simpl in Heq; inversion Heq; subst.
    + exact Hs.
    + eapply IH; [|reflexivity]. rewrite Hi. congruence.
Qed.

Lemma exec_first (pre s : chars) (idx : nat) :
  indexOf width_prefix (pre ++ s) = Some (length pre) ->
  exec svg_width_regex 1 idx (pre ++ s) = exec svg_width_regex 1 (idx + length pre) s.
Proof.
  revert idx. induction pre as [|a pre IH]; intros idx H.
  - simpl. now rewrite Nat.add_0_r.
  - cbn [app exec].
    rewrite match_at_no_prefix by (eapply (indexOf_first _ _ _ H []); reflexivity).
    cbn [length]. rewrite Nat.add_succ_r. apply IH.
    cbn [app indexOf length] in H.
    destruct (startsWith width_prefix (a :: pre ++ s)); [discriminate|].
    destruct (indexOf width_prefix (pre ++ s)); congruence.
Qed.

(** The width that [main] reads: the text between the first [<svg width=]
    with its opening quote and the next double quote. *)
Lemma declared_width_value (pre v post : chars) :
  indexOf width_prefix (pre ++ width_prefix ++ v ++ "034"%char :: post) = Some (length pre) ->
  plain_value v ->
  declared_width (unstr (pre ++ width_prefix ++ v ++ "034"%char :: post)) = Some (unstr v).
Proof.
  intros Hfirst Hv. unfold declared_width, exec_pattern.
  rewrite RegExp_svg_width, str_unstr, exec_first by exact Hfirst.
  destruct (width_prefix ++ v ++ "034"%char :: post) as [|c s] eqn:Hs; [discriminate|].
  cbn [exec]. rewrite <- Hs, match_at_value by exact Hv. reflexivity.
Qed.

(** Without [<svg width=] and an opening quote there is no width. *)
Lemma declared_width_absent (content : string) :
  includes (str content) width_prefix = false -> declared_width content = None.
Proof.
  unfold includes, declared_width, exec_pattern. intros H.
  rewrite RegExp_svg_width, exec_no_prefix; [reflexivity|].
  now destruct (indexOf width_prefix (str content)).
Qed.

(** *** The candidate selector *)

Lemma all_from_spec (count : nat) (W n : Z) :
  all_from count W = true -> (W <= n < W + Z.of_nat count)%Z -> width_agrees n = true.
Proof.
  revert W. induction count as [|count IH]; intros W H Hn; [lia|].
  cbn [all_from] in H. apply andb_true_iff in H as [H0 H1].
  destruct (Z.eq_dec n W) as [->|Hne]; [exact H0|].
  apply (IH (W + 1)%Z); [exact H1 | lia].
Qed.

Lemma width_agrees_upto : all_from 20001 0 = true.
Proof. vm_cast_no_check (eq_refl true). Qed.

Lemma select_width (cwd file : string) (size : nat) (content : string) (cand : candidate) :
  SizeGated.select cwd file size content = Some cand \/
  RasterOnly.select cwd file content = Some cand ->
  exists W, declared_width content = Some W /\ width cand = target_width (str W).
Proof.
  unfold SizeGated.select, RasterOnly.select.
  destruct (declared_width content) as [W|].
  - intros [H|H]; exists W; (split; [reflexivity|]).
    + destruct (size <? 10 * 1024)%nat; [discriminate|].
      destruct (falsy (Some W)); [discriminate|]. now inversion H.
    + destruct (falsy (Some W) || negb (RasterOnly.has_image content)); [discriminate|].
      now inversion H.
  - intros [H|H]; [destruct (size <? 10 * 1024)%nat|]; discriminate.
Qed.

(** C4: the width of every selected candidate is
    [Math.round(3.12476 * Number(W) + 0.196661)] for the declared width [W];
    for an integer [W] up to 20000 that is the exactly rounded value, 313 for
    100 and 1563 for 500. *)
#[warnings="-inexact-float"]
Theorem target_width_formula (cwd file : string) (size : nat) (content : string)
    (cand : candidate) :
  SizeGated.select cwd file size content = Some cand \/
  RasterOnly.select cwd file content = Some cand ->
  exists W,
    declared_width content = Some W /\
    width cand = Math_round (3.12476 * Number (str W) + 0.196661)%float /\
    (forall n : Z, (0 <= n <= 20000)%Z -> W = decimal n ->
       width cand = float_of_Z (rounded_exact n)) /\
    (W = "100"%string -> width cand = 313%float) /\
    (W = "500"%string -> width cand = 1563%float).
Proof.
  intros H. destruct (select_width _ _ _ _ _ H) as (W & HW & Hc).
  exists W. split; [exact HW|]. split; [exact Hc|]. split; [|split].
  - intros n Hn ->. rewrite Hc.
    apply FloatAxioms.Leibniz.eqb_spec.
    apply (all_from_spec 20001 0 n width_agrees_upto).
    replace (Z.of_nat 20001) with 20001%Z by (vm_compute; reflexivity). lia.
  - intros ->. rewrite Hc. reflexivity.
  - intros ->. rewrite Hc. reflexivity.
Qed.

Lemma target_width_formula_witness :
  exists W,
    declared_width (svg_with_width "100") = Some W /\
    width (sample_candidate "logo.svg") = target_width (str W) /\
    (forall n : Z, (0 <= n <= 20000)%Z -> W = decimal n ->
       width (sample_candidate "logo.svg") = float_of_Z (rounded_exact n)) /\
    (W = "100"%string -> width (sample_candidate "logo.svg") = 313%float) /\
    (W = "500"%string -> width (sample_candidate "logo.svg") = 1563%float).
Proof.
  apply (target_width_formula "/proj" "logo.svg" 12288 (svg_with_width "100")
           (sample_candidate "logo.svg")).
  left. vm_compute. reflexivity.
Defined.

Lemma RasterOnly_select_None (cwd file content : string) :
  RasterOnly.select cwd file content = None <->
  falsy (declared_width content) = true \/ RasterOnly.has_image content = false.
Proof.
  unfold RasterOnly.select.
  destruct (falsy (declared_width content)), (RasterOnly.has_image content);
    cbn [orb negb]; split; intros H; try reflexivity; try discriminate; auto.
  destruct H; discriminate.
Qed.

(** C5, as the code has it: the first version excludes every file below
    10 KiB, whatever its width; the second version has no size threshold and
    excludes exactly the files without a width or without an [<image] tag. *)
Theorem select_below_threshold (cwd file : string) (size : nat) (content : string) :
  (size < 10 * 1024)%nat ->
  SizeGated.select cwd file size content = None /\
  (RasterOnly.select cwd file content = None <->
   falsy (declared_width content) = true \/ RasterOnly.has_image content = false).
Proof.
  intros H. split; [|apply RasterOnly_select_None].
  unfold SizeGated.select.
  now replace (size <? 10 * 1024)%nat with true by (symmetry; apply Nat.ltb_lt; exact H).
Qed.

Lemma select_below_threshold_witness :
  SizeGated.select "/proj" "logo.svg" 31 (svg_with_width "100") = None /\
  (RasterOnly.select "/proj" "logo.svg" (svg_with_width "100") = None <->
   falsy (declared_width (svg_with_width "100")) = true \/
   RasterOnly.has_image (svg_with_width "100") = false).
Proof.
  apply (select_below_threshold "/proj" "logo.svg" 31 (svg_with_width "100")).
  vm_compute. lia.
Defined.

(** C5 as stated fails on the second version: a file of 31 bytes with a width
    and an [<image] tag is selected. *)
Lemma RasterOnly_selects_small_file :
  String.length (svg_with_width "100") = 31%nat /\
  (31 < 10 * 1024)%nat /\
  RasterOnly.select "/proj" "logo.svg" (svg_with_width "100") =
  Some (sample_candidate "logo.svg").
Proof. split; [reflexivity|]. split; [vm_compute; lia | reflexivity]. Qed.

(** C6, as the code has it: a file without [<svg width=] and an opening
    quote, or whose first such attribute has the empty value, is excluded by
    both versions whatever its size; the selector is a total function and
    raises nothing. *)
Theorem select_without_width (cwd file : string) (size : nat) (content : string) :
  includes (str content) width_prefix = false \/
  (exists pre post,
     str content = pre ++ width_prefix ++ "034"%char :: post /\
     indexOf width_prefix (str content) = Some (length pre)) ->
  SizeGated.select cwd file size content = None /\
  RasterOnly.select cwd file content = None.
Proof.
  intros H.
  assert (Hw : falsy (declared_width content) = true).
  { destruct H as [H | (pre & post & Heq & Hfirst)].
    - now rewrite declared_width_absent.
    - rewrite <- (unstr_str content), Heq.
      rewrite Heq in Hfirst.
      pose proof (declared_width_value pre [] post) as Hd. cbn [app] in Hd.
      rewrite Hd; [reflexivity | exact Hfirst | constructor]. }
  unfold SizeGated.select, RasterOnly.select. rewrite Hw.
  split; [now destruct (size <? 10 * 1024)%nat | reflexivity].
Qed.

Lemma select_without_width_witness :
  SizeGated.select "/proj" "logo.svg" 20000 "<svg height='3'><image/></svg>" = None /\
  RasterOnly.select "/proj" "logo.svg" "<svg height='3'><image/></svg>" = None.
Proof.
  apply (select_without_width "/proj" "logo.svg" 20000 "<svg height='3'><image/></svg>").
  left. vm_compute. reflexivity.
Defined.

(** C6 as stated fails: a width that is not a number is not rejected.  The
    file is selected, with the width [NaN]. *)
Lemma select_keeps_non_numeric_width :
  declared_width (svg_with_width "abc") = Some "abc"%string /\
  Number (str "abc") = PrimFloat.nan /\
  SizeGated.select "/proj" "logo.svg" 20000 (svg_with_width "abc") =
    Some (Candidate "/proj/logo.svg" "/proj" "logo.svg" (svg_with_width "abc") PrimFloat.nan) /\
  RasterOnly.select "/proj" "logo.svg" (svg_with_width "abc") =
    Some (Candidate "/proj/logo.svg" "/proj" "logo.svg" (svg_with_width "abc") PrimFloat.nan).
Proof. repeat split; vm_compute; reflexivity. Qed.

(** *** Deriving the AVIF name *)

Lemma startsWith_app_l (p s t : chars) :
  (length p <= length s)%nat -> startsWith p (s ++ t) = startsWith p s.
Proof.
  revert s. induction p as [|a p IH]; intros [|c s] H; simpl in *;
    try reflexivity; try lia.
  rewrite IH by lia. reflexivity.
Qed.

Lemma includes_cons_false (c : ascii) (s p : chars) :
  includes (c :: s) p = false -> startsWith p (c :: s) = false /\ includes s p = false.
Proof.
  unfold includes. destruct (indexOf p (c :: s)) eqn:H; [discriminate|].
  apply indexOf_None in H as [H1 H2]. now rewrite H2.
Qed.

(** An occurrence of [q ++ [a]] behind [pre] is the first one when there is
    none that starts inside [pre]. *)
Lemma indexOf_first_occurrence (q : chars) (a : ascii) (pre post : chars) :
  includes (pre ++ q) (q ++ [a]) = false ->
  indexOf (q ++ [a]) (pre ++ (q ++ [a]) ++ post) = Some (length pre).
Proof.
  induction pre as [|c pre IH]; intros H.
  - cbn [app length]. destruct ((q ++ [a]) ++ post) as [|c s] eqn:Heq.
    + now destruct q.
    + cbn [indexOf]. now rewrite <- Heq, startsWith_app.
  - cbn [app] in H. apply includes_cons_false in H as [Hs Hi].
    cbn [app indexOf length].
    replace (c :: pre ++ (q ++ [a]) ++ post) with ((c :: pre ++ q) ++ a :: post)
      by (cbn [app]; now rewrite <- !app_assoc).
    rewrite startsWith_app_l, Hs.
    + replace ((c :: pre ++ q) ++ a :: post) with (c :: pre ++ (q ++ [a]) ++ post)
        by (cbn [app]; now rewrite <- !app_assoc).
      now rewrite (IH Hi).
    + cbn [length]. rewrite !length_app. cbn [length]. lia.
Qed.

Lemma path_join_inj (d f g : string) : path_join d f = path_join d g -> f = g.
Proof.
  unfold path_join. destruct (decide (d = "/"%string)); intros H.
  - now apply (inj (String.app "/")) in H.
  - apply (inj (String.app d)) in H. now apply (inj (String.app "/")) in H.
Qed.

Lemma startsWith_length (p s : chars) : startsWith p s = true -> (length p <= length s)%nat.
Proof.
  revert s. induction p as [|a p IH]; intros [|c s]; simpl; try lia; try discriminate.
  intros [_ H]%andb_true_iff. apply IH in H. lia.
Qed.

Lemma indexOf_Some_bound (p s : chars) (i : nat) :
  indexOf p s = Some i -> (i + length p <= length s)%nat.
Proof.
  revert i. induction s as [|c s IH]; intros i; cbn [indexOf].
  - destruct (startsWith p []) eqn:H; [|discriminate].
    intros [= <-]. now apply startsWith_length in H.
  - destruct (startsWith p (c :: s)) eqn:H.
    + intros [= <-]. now apply startsWith_length in H.
    + destruct (indexOf p s) as [j|]; [|discriminate].
      intros [= <-]. specialize (IH j eq_refl). cbn [length]. lia.
Qed.

(** A name that contains [.svg] changes: the artifact is another file. *)
Lemma svg_to_avif_neq (name : string) :
  includes (str name) (str ".svg") = true -> svg_to_avif name <> name.
Proof.
  unfold includes, svg_to_avif, replace_string.
  destruct (indexOf (str ".svg") (str name)) as [i|] eqn:Hi; [|discriminate].
  intros _ Heq. apply indexOf_Some_bound in Hi.
  apply (f_equal String.length) in Heq. rewrite length_unstr, <- length_str in Heq.
  change (getSubstitution _ _ _ _ _) with (str ".avif") in Heq.
  rewrite !length_app, length_take, length_drop in Heq.
  change (length (str ".svg")) with 4%nat in *.
  change (length (str ".avif")) with 5%nat in *. lia.
Qed.

Lemma avifPath_neq (file : candidate) :
  path file = path_join (dir file) (name file) ->
  includes (str (name file)) (str ".svg") = true ->
  path_join (dir file) (svg_to_avif (name file)) <> path file.
Proof.
  intros -> Hi Heq. apply path_join_inj in Heq. now apply svg_to_avif_neq in Heq.
Qed.

(** C10: [name.replace(".svg", ".avif")] replaces the first occurrence of
    [.svg], not the extension; the artifact path is built from that name, and
    [my.svg-icon.svg] gives [my.avif-icon.svg], both for the artifact and for
    the references. *)
Theorem svg_to_avif_first_occurrence (pre post : chars) :
  includes (pre ++ str ".sv") (str ".svg") = false ->
  svg_to_avif (unstr (pre ++ str ".svg" ++ post)) = unstr (pre ++ str ".avif" ++ post) /\
  svg_to_avif "my.svg-icon.svg" = "my.avif-icon.svg"%string /\
  (forall h file w avifPath w',
     conversion_session h file w = (Ok avifPath, w') ->
     avifPath = path_join (dir file) (svg_to_avif (name file))) /\
  fs (SizeGated.convert sample_host (sample_candidate "my.svg-icon.svg")
        (sample_world "my.svg-icon.svg" "<img src='my.svg-icon.svg'>")).2 =
  {[ "/proj/my.avif-icon.svg"%string := File "avif" true true;
     "/proj/index.html"%string := File "<img src='my.avif-icon.svg'>" true true;
     "/proj/locked.css"%string := File "url(logo.svg)" false true;
     "/proj/readme.md"%string := File "see logo.svg" true true ]}.
Proof.
  intros H. split; [|split; [|split]]; [| | |vm_compute; reflexivity].
  - unfold svg_to_avif, replace_string. rewrite str_unstr.
    change (str ".svg") with (str ".sv" ++ ["g"%char]) at 1 2.
    rewrite (indexOf_first_occurrence (str ".sv") "g" pre post H).
    change (str ".sv" ++ ["g"%char]) with (str ".svg").
    rewrite take_app_length.
    replace (length pre + length (str ".svg"))%nat
      with (length (pre ++ str ".svg")) by now rewrite length_app.
    rewrite (app_assoc pre (str ".svg") post), drop_app_length. reflexivity.
  - reflexivity.
  - intros h file w avifPath w'. unfold conversion_session, bind.
    repeat match goal with
           | |- context [match ?m ?x with _ => _ end] =>
               lazymatch type of (m x) with
               | (result _ * world)%type => destruct (m x) as [[?|?] ?]
               end
           end; intros Heq; inversion Heq; reflexivity.
Qed.

Lemma svg_to_avif_first_occurrence_witness :
  svg_to_avif (unstr (str "my" ++ str ".svg" ++ str "-icon.svg")) =
    unstr (str "my" ++ str ".avif" ++ str "-icon.svg") /\
  svg_to_avif "my.svg-icon.svg" = "my.avif-icon.svg"%string /\
  (forall h file w avifPath w',
     conversion_session h file w = (Ok avifPath, w') ->
     avifPath = path_join (dir file) (svg_to_avif (name file))) /\
  fs (SizeGated.convert sample_host (sample_candidate "my.svg-icon.svg")
        (sample_world "my.svg-icon.svg" "<img src='my.svg-icon.svg'>")).2 =
  {[ "/proj/my.avif-icon.svg"%string := File "avif" true true;
     "/proj/index.html"%string := File "<img src='my.avif-icon.svg'>" true true;
     "/proj/locked.css"%string := File "url(logo.svg)" false true;
     "/proj/readme.md"%string := File "see logo.svg" true true ]}.
Proof.
  apply (svg_to_avif_first_occurrence (str "my") (str "-icon.svg")).
  reflexivity.
Defined.

(** *** The paths of a selected candidate *)

Lemma str_app (a b : string) : str (a +:+ b) = str a ++ str b.
Proof.
  unfold str. induction a as [|c a IH]; simpl; [reflexivity | now rewrite IH].
Qed.

Lemma unstr_app (a b : chars) : unstr (a ++ b) = unstr a +:+ unstr b.
Proof.
  unfold unstr. induction a as [|c a IH]; simpl; [reflexivity | now rewrite IH].
Qed.

Lemma split_last_slash_none (p seen : chars) (last : option (chars * chars)) :
  "/"%char ∉ p -> split_last_slash seen p last = last.
Proof.
  revert seen last. induction p as [|c p IH]; intros seen last H; [reflexivity|].
  cbn [split_last_slash]. apply not_elem_of_cons in H as [Hc Hp].
  rewrite IH by exact Hp.
  destruct (ascii_eqb c "/") eqn:He; [|reflexivity].
  apply Ascii.eqb_eq in He. congruence.
Qed.

Lemma split_last_slash_app (d b seen : chars) (last : option (chars * chars)) :
  "/"%char ∉ b ->
  split_last_slash seen (d ++ "/"%char :: b) last = Some (rev seen ++ d, b).
Proof.
  intros Hb. revert seen last. induction d as [|c d IH]; intros seen last.
  - cbn [app split_last_slash]. rewrite split_last_slash_none by exact Hb.
    cbn. now rewrite app_nil_r.
  - cbn [app split_last_slash]. rewrite IH. cbn [rev].
    now rewrite <- app_assoc.
Qed.

Lemma last_slash (p : chars) :
  "/"%char ∉ p \/ exists d b, p = d ++ "/"%char :: b /\ "/"%char ∉ b.
Proof.
  induction p as [|c p [IH | (d & b & -> & Hb)]].
  - left. apply not_elem_of_nil.
  - destruct (decide (c = "/"%char)) as [->|Hc].
    + right. now exists [], p.
    + left. now apply not_elem_of_cons.
  - right. now exists (c :: d), b.
Qed.

(** The joined path, as characters. *)
Lemma str_path_join (d f : string) :
  str (path_join d f) = (if decide (d = "/"%string) then [] else str d) ++ "/"%char :: str f.
Proof.
  unfold path_join. destruct (decide (d = "/"%string)); now rewrite !str_app.
Qed.

Lemma path_join_unstr (d f : chars) :
  unstr d <> "/"%string -> path_join (unstr d) (unstr f) = unstr (d ++ "/"%char :: f).
Proof.
  intros H. unfold path_join. rewrite decide_False by exact H.
  change ("/"%char :: f) with (str "/" ++ f). now rewrite !unstr_app, unstr_str.
Qed.

(** For a file name as [glob] returns it (not starting with a slash), the
    path of the candidate is its directory joined with its name. *)
Lemma make_candidate_path (cwd file content width : string) :
  startsWith ["/"%char] (str file) = false ->
  path (make_candidate cwd file content width) =
  path_join (dir (make_candidate cwd file content width))
    (name (make_candidate cwd file content width)).
Proof.
  intros Hrel. cbn [path dir name make_candidate].
  unfold path_dirname, path_basename. rewrite str_path_join.
  destruct (last_slash (str file)) as [Hno | (fd & fb & Hfile & Hfb)].
  - rewrite (split_last_slash_none (str file) [] None Hno).
    rewrite (split_last_slash_app _ (str file) [] None Hno). cbn [rev app].
    destruct (decide (cwd = "/"%string)) as [->|Hne]; [reflexivity|].
    destruct (str cwd) as [|c X] eqn:HX.
    + apply (f_equal unstr) in HX. rewrite unstr_str in HX. subst cwd. reflexivity.
    + rewrite <- HX, unstr_str. reflexivity.
  - rewrite Hfile, (split_last_slash_app fd fb [] None Hfb). cbn [rev app].
    set (X := if decide (cwd = "/"%string) then [] else str cwd).
    replace (X ++ "/"%char :: fd ++ "/"%char :: fb)
      with ((X ++ "/"%char :: fd) ++ "/"%char :: fb) by now rewrite <- app_assoc.
    rewrite (split_last_slash_app (X ++ "/"%char :: fd) fb [] None Hfb). cbn [rev app].
    assert (Hd : unstr (X ++ "/"%char :: fd) <> "/"%string).
    { intros Heq. apply (f_equal str) in Heq. rewrite str_unstr in Heq.
      destruct X as [|x X]; cbn in Heq.
      - inversion Heq; subst fd. rewrite Hfile in Hrel. cbn in Hrel. discriminate.
      - inversion Heq as [[Hx Hrest]]. now destruct X. }
    destruct (X ++ "/"%char :: fd) as [|c D] eqn:HD; [now destruct X|].
    rewrite <- HD in *. rewrite path_join_unstr by exact Hd.
    rewrite <- (unstr_str (path_join cwd file)), str_path_join, Hfile.
    fold X. now rewrite <- app_assoc.
Qed.

(** The artifact of a selected candidate is not saved over the original. *)
Lemma make_candidate_artifact (cwd file content width : string) :
  startsWith ["/"%char] (str file) = false ->
  includes (str (path_basename file)) (str ".svg") = true ->
  path_join (dir (make_candidate cwd file content width))
    (svg_to_avif (name (make_candidate cwd file content width))) <>
  path (make_candidate cwd file content width).
Proof.
  intros Hrel Hsvg. apply avifPath_neq; [now apply make_candidate_path | exact Hsvg].
Qed.

Lemma selected_is_made (cwd file : string) (size : nat) (content : string)
    (cand : candidate) :
  SizeGated.select cwd file size content = Some cand \/
  RasterOnly.select cwd file content = Some cand ->
  exists width, cand = make_candidate cwd file content width.
Proof.
  unfold SizeGated.select, RasterOnly.select.
  intros [H|H].
  - destruct (size <? 10 * 1024)%nat; [discriminate|].
    destruct (falsy (declared_width content)); [discriminate|].
    inversion H. eauto.
  - destruct (falsy (declared_width content) || negb (RasterOnly.has_image content));
      [discriminate|].
    inversion H. eauto.
Qed.

(** X1: every candidate that [main] selects for a relative file name whose
    base name contains [.svg] has its artifact beside it, under another name:
    the session never saves the artifact over the original. *)
Lemma selected_artifact_elsewhere (cwd file : string) (size : nat) (content : string)
    (cand : candidate) :
  SizeGated.select cwd file size content = Some cand \/
  RasterOnly.select cwd file content = Some cand ->
  startsWith ["/"%char] (str file) = false ->
  includes (str (path_basename file)) (str ".svg") = true ->
  path_join (dir cand) (svg_to_avif (name cand)) <> path cand.
Proof.
  intros Hsel Hrel Hsvg. destruct (selected_is_made _ _ _ _ _ Hsel) as [width ->].
  now apply make_candidate_artifact.
Qed.

Lemma selected_artifact_elsewhere_witness :
  path_join (dir (sample_candidate "img/logo.svg"))
    (svg_to_avif (name (sample_candidate "img/logo.svg"))) <>
  path (sample_candidate "img/logo.svg").
Proof.
  apply (selected_artifact_elsewhere "/proj" "img/logo.svg" 12288 (svg_with_width "100")).
  - left. vm_compute. reflexivity.
  - reflexivity.
  - reflexivity.
Defined.

(** *** The loop of [updateReferences] *)

Lemma alter_lookup_Some {A} (f : A -> A) (m : gmap string A) (i : string) (x : A) :
  m !! i = Some x -> alter f i m = <[i := f x]> m.
Proof.
  intros H. apply map_eq. intros j. rewrite lookup_alter, lookup_insert.
  destruct (decide (i = j)); [now rewrite H | reflexivity].
Qed.

Section Rounds.

Variable h : host.
Variables originalName newName : string.

Let filePath (f : string) : string := path_join (currentDir h) f.

(** One round: the file is rewritten, or the failure is logged; the round
    itself never raises. *)
Lemma update_file_run (f : string) (w : world) :
  exists lines,
    update_file h originalName newName f w =
      (Ok tt, World (alter (rewritten h originalName newName) (filePath f) (fs w))
                (browser_open w) (context_open w) (lines ++ console w)) /\
    (round_fails h originalName newName (fs w !! filePath f) = true ->
     exists e, ErrorProcessing f e ∈ lines).
Proof.
  unfold update_file, try_catch, bind, readFile, round_fails, filePath.
  destruct (fs w !! path_join (currentDir h) f) as [fl|] eqn:Hl.
  - destruct (readable fl) eqn:Hr; cbn [negb orb].
    + destruct (includes (str (data fl)) (str originalName)) eqn:Hi; cbn [andb].
      * unfold log, replace_all.
        destruct (replace_result h (data fl) originalName newName) as [u|] eqn:Hu;
          unfold ret, raise.
        -- unfold writeFile. cbn [fs]. rewrite Hl.
           destruct (writable fl) eqn:Hw.
           ++ exists [LogUpdatingReferences f]. split; [|discriminate].
              unfold set_fs. cbn. f_equal. f_equal.
              rewrite (alter_lookup_Some _ _ _ _ Hl). unfold rewritten.
              now rewrite Hr, Hi, Hu, Hw.
           ++ exists [ErrorProcessing f (EACCES (path_join (currentDir h) f));
                      LogUpdatingReferences f].
              split; [|intros _; eexists; apply list_elem_of_here].
              cbn. f_equal. f_equal. symmetry. apply alter_id.
              intros x Hx. rewrite Hl in Hx. inversion Hx; subst x.
              unfold rewritten. now rewrite Hr, Hi, Hu, Hw.
        -- exists [ErrorProcessing f RegExpError; LogUpdatingReferences f].
           split; [|intros _; eexists; apply list_elem_of_here].
           cbn. f_equal. f_equal. symmetry. apply alter_id.
           intros x Hx. rewrite Hl in Hx. inversion Hx; subst x.
           unfold rewritten. now rewrite Hr, Hi, Hu.
      * exists []. split; [|discriminate].
        unfold ret. destruct w. cbn. f_equal. f_equal. symmetry. apply alter_id.
        intros x Hx. cbn in Hl. rewrite Hl in Hx. inversion Hx; subst x.
        unfold rewritten. now rewrite Hr, Hi.
    + exists [ErrorProcessing f (EACCES (path_join (currentDir h) f))].
      split; [|intros _; eexists; apply list_elem_of_here].
      unfold log. cbn. f_equal. f_equal. symmetry. apply alter_id.
      intros x Hx. rewrite Hl in Hx. inversion Hx; subst x.
      unfold rewritten. now rewrite Hr.
  - exists [ErrorProcessing f (ENOENT (path_join (currentDir h) f))].
    split; [|intros _; eexists; apply list_elem_of_here].
    unfold log. cbn. f_equal. f_equal. symmetry. now apply alter_id'.
Qed.

(** The rounds for other files leave a path as it is. *)
Lemma lookup_rounds_other (files : list string) (m : gmap string file) (p : string) :
  (forall f, f ∈ files -> filePath f <> p) ->
  rounds h originalName newName files m !! p = m !! p.
Proof.
  unfold rounds, filePath.
  revert m. induction files as [|f files IH]; intros m H; [reflexivity|].
  cbn [foldl]. rewrite IH.
  - apply lookup_alter_ne, H, list_elem_of_here.
  - intros g Hg. apply H. now apply list_elem_of_further.
Qed.

(** A file of the list ends as its own round leaves it. *)
Lemma lookup_rounds (files : list string) (m : gmap string file) (g : string) :
  NoDup files -> g ∈ files ->
  rounds h originalName newName files m !! filePath g =
  rewritten h originalName newName <$> m !! filePath g.
Proof.
  revert m. induction files as [|f files IH]; intros m Hnd Hg.
  - now apply elem_of_nil in Hg.
  - apply NoDup_cons in Hnd as [Hf Hnd].
    change (rounds h originalName newName (f :: files) m)
      with (rounds h originalName newName files
              (alter (rewritten h originalName newName) (filePath f) m)).
    apply elem_of_cons in Hg as [->|Hg].
    + rewrite lookup_rounds_other; [apply lookup_alter_eq|].
      intros f' Hf' Heq. apply path_join_inj in Heq. now subst.
    + rewrite IH by assumption. rewrite lookup_alter_ne; [reflexivity|].
      intros Heq. apply path_join_inj in Heq. now subst.
Qed.

Lemma for_of_update_files (files : list string) (w : world) :
  exists lines,
    for_of files (update_file h originalName newName) w =
      (Ok tt,
       World (rounds h originalName newName files (fs w))
         (browser_open w) (context_open w) (lines ++ console w)) /\
    (NoDup files ->
     forall f, f ∈ files ->
       round_fails h originalName newName (fs w !! filePath f) = true ->
       exists e, ErrorProcessing f e ∈ lines).
Proof.
  revert w. induction files as [|f files IH]; intros w.
  - exists []. split; [now destruct w|]. intros _ f Hf. now apply elem_of_nil in Hf.
  - destruct (update_file_run f w) as (l1 & Hrun & Hlog).
    cbn [for_of]. unfold bind at 1. rewrite Hrun.
    destruct (IH (World (alter (rewritten h originalName newName) (filePath f) (fs w))
                    (browser_open w) (context_open w) (l1 ++ console w)))
      as (l2 & Hrest & Hlog2).
    rewrite Hrest. cbn [fs browser_open context_open console].
    exists (l2 ++ l1). split; [now rewrite app_assoc|].
    intros Hnd g Hg Hfail. apply NoDup_cons in Hnd as [Hf Hnd].
    apply elem_of_cons in Hg as [->|Hg].
    + destruct (Hlog Hfail) as [e He]. exists e. apply elem_of_app. now right.
    + destruct (Hlog2 Hnd g Hg) as [e He].
      * cbn [fs]. rewrite lookup_alter_ne; [exact Hfail|].
        intros Heq. apply path_join_inj in Heq. now subst.
      * exists e. apply elem_of_app. now left.
Qed.

Lemma updateReferences_run (w : world) (files : list string) :
  text_files h = Some files ->
  exists lines,
    updateReferences h originalName newName w =
      (Ok tt,
       World (rounds h originalName newName files (fs w))
         (browser_open w) (context_open w) (lines ++ console w)) /\
    (NoDup files ->
     forall f, f ∈ files ->
       round_fails h originalName newName (fs w !! filePath f) = true ->
       exists e, ErrorProcessing f e ∈ lines).
Proof.
  intros Hfiles. unfold updateReferences, glob_text, bind, log, ret.
  rewrite Hfiles.
  destruct (for_of_update_files files
              (World (fs w) (browser_open w) (context_open w)
                 (LogSearchingReferences originalName :: console w)))
    as (lines & Hrun & Hlog).
  rewrite Hrun. cbn [fs browser_open context_open console].
  exists (lines ++ [LogSearchingReferences originalName]). split.
  - now rewrite <- app_assoc.
  - intros Hnd f Hf Hfail. destruct (Hlog Hnd f Hf Hfail) as [e He].
    exists e. apply elem_of_app. now left.
Qed.

End Rounds.

Lemma rewrite_completes_iff (h : host) : rewrite_completes h <-> is_Some (text_files h).
Proof.
  unfold rewrite_completes. split.
  - intros H. specialize (H EmptyString EmptyString (World ∅ false false [])).
    unfold updateReferences, glob_text, bind, log in H.
    destruct (text_files h); [eauto | discriminate].
  - intros [files Hfiles] o n w.
    destruct (updateReferences_run h o n w files Hfiles) as (lines & -> & _).
    reflexivity.
Qed.

(** C9: a round of the scan that fails is caught and logged, and the files
    after it are still scanned: each one that can be read and written and
    contains the name is rewritten. *)
Theorem updateReferences_continues (h : host) (o n : string) (w : world)
    (before : list string) (f : string) (after : list string) :
  text_files h = Some (before ++ f :: after) ->
  NoDup (before ++ f :: after) ->
  round_fails h o n (fs w !! path_join (currentDir h) f) = true ->
  (updateReferences h o n w).1 = Ok tt /\
  (exists e, ErrorProcessing f e ∈ console (updateReferences h o n w).2) /\
  fs (updateReferences h o n w).2 !! path_join (currentDir h) f =
    fs w !! path_join (currentDir h) f /\
  (forall g fl updated,
     g ∈ after ->
     fs w !! path_join (currentDir h) g = Some fl ->
     readable fl = true -> writable fl = true ->
     includes (str (data fl)) (str o) = true ->
     replace_result h (data fl) o n = Some updated ->
     fs (updateReferences h o n w).2 !! path_join (currentDir h) g =
       Some (File updated true true)).
Proof.
  intros Hfiles Hnd Hfail.
  destruct (updateReferences_run h o n w _ Hfiles) as (lines & Hrun & Hlog).
  specialize (Hlog Hnd). rewrite Hrun. cbn [fst snd fs console].
  assert (Hf : f ∈ before ++ f :: after)
    by (apply elem_of_app; right; apply list_elem_of_here).
  split; [reflexivity|]. split; [|split].
  - destruct (Hlog f Hf Hfail) as [e He]. exists e. apply elem_of_app. now left.
  - rewrite lookup_rounds by assumption.
    destruct (fs w !! path_join (currentDir h) f) as [fl|]; [|reflexivity].
    cbn [fmap option_fmap option_map]. f_equal.
    unfold round_fails in Hfail. unfold rewritten.
    destruct (readable fl); [|reflexivity]. cbn [negb orb andb] in *.
    destruct (includes (str (data fl)) (str o)); [|discriminate]. cbn [andb] in Hfail.
    destruct (replace_result h (data fl) o n); [|reflexivity].
    destruct (writable fl); [discriminate | reflexivity].
  - intros g fl updated Hg Hl Hr Hw Hi Hu.
    rewrite lookup_rounds; [|assumption|].
    + rewrite Hl. cbn [fmap option_fmap option_map]. f_equal.
      unfold rewritten. now rewrite Hr, Hi, Hu, Hw.
    + apply elem_of_app. right. now apply list_elem_of_further.
Qed.

Lemma updateReferences_continues_witness :
  (updateReferences sample_host "logo.svg" "logo.avif"
     (sample_world "logo.svg" "<img src='logo.svg'>")).1 = Ok tt /\
  (exists e, ErrorProcessing "locked.css" e ∈
     console (updateReferences sample_host "logo.svg" "logo.avif"
                (sample_world "logo.svg" "<img src='logo.svg'>")).2) /\
  fs (updateReferences sample_host "logo.svg" "logo.avif"
        (sample_world "logo.svg" "<img src='logo.svg'>")).2 !! "/proj/locked.css"%string =
    Some (File "url(logo.svg)" false true) /\
  fs (updateReferences sample_host "logo.svg" "logo.avif"
        (sample_world "logo.svg" "<img src='logo.svg'>")).2 !! "/proj/readme.md"%string =
    Some (File "see logo.avif" true true).
Proof.
  destruct (updateReferences_continues sample_host "logo.svg" "logo.avif"
              (sample_world "logo.svg" "<img src='logo.svg'>")
              ["index.html"%string] "locked.css" ["readme.md"%string])
    as (Hok & Hlog & Hsame & Hafter).
  - reflexivity.
  - apply NoDup_ListNoDup. repeat constructor; cbn; intuition discriminate.
  - vm_compute. reflexivity.
  - split; [exact Hok|]. split; [exact Hlog|]. split.
    + refine (eq_trans Hsame _). vm_compute. reflexivity.
    + apply (Hafter "readme.md"%string (File "see logo.svg" true true)).
      * apply list_elem_of_here.
      * vm_compute. reflexivity.
      * reflexivity.
      * reflexivity.
      * vm_compute. reflexivity.
      * vm_compute. reflexivity.
Defined.

(** *** File names as patterns *)

(** The dot of a file name stands for any character but a line terminator:
    [logo], any such character and [svg] are rewritten as if they were the
    name. *)
Lemma dot_matches_any_character (x : ascii) :
  replace_regexp (str "logo" ++ x :: str "svg") (str "logo.svg") (str "logo.avif") =
  Returns (if line_terminator x then str "logo" ++ x :: str "svg" else str "logo.avif").
Proof. destruct x as [[] [] [] [] [] [] [] []]; vm_compute; reflexivity. Qed.

(** C1 fails on the code: [originalName] is compiled as a pattern without
    escaping.  For [icon (1).svg] the parentheses form a group and the
    references are left as they are; for [logo.svg] the dot matches any
    character and [logo-svg] is rewritten too.  The literal replacement that
    the claim describes differs in both cases. *)
Theorem updateReferences_not_literal :
  fs (updateReferences sample_host "icon (1).svg" "icon (1).avif"
        (sample_world "icon (1).svg" "<img src='icon (1).svg'>")).2
    !! "/proj/index.html"%string =
    Some (File "<img src='icon (1).svg'>" true true) /\
  replace_literally "<img src='icon (1).svg'>" "icon (1).svg" "icon (1).avif" =
    "<img src='icon (1).avif'>"%string /\
  fs (updateReferences sample_host "logo.svg" "logo.avif"
        (sample_world "logo.svg" "<a href='logo.svg'>logo-svg</a>")).2
    !! "/proj/index.html"%string =
    Some (File "<a href='logo.avif'>logo.avif</a>" true true) /\
  replace_literally "<a href='logo.svg'>logo-svg</a>" "logo.svg" "logo.avif" =
    "<a href='logo.avif'>logo-svg</a>"%string.
Proof. repeat split; vm_compute; reflexivity. Qed.

(** *** Rules for [triple] *)

Lemma triple_bind {A B} (P : world -> Prop) (m : M A) (k : A -> M B)
    (R : A -> world -> Prop) (Q : B -> world -> Prop) (E : error -> world -> Prop) :
  triple P m R E -> (forall a, triple (R a) (k a) Q E) -> triple P (bind m k) Q E.
Proof.
  intros Hm Hk w HP. unfold bind. specialize (Hm w HP).
  destruct (m w) as [[a|e] w1]; [now apply Hk | exact Hm].
Qed.

Lemma triple_conseq {A} (P P' : world -> Prop) (m : M A)
    (Q Q' : A -> world -> Prop) (E E' : error -> world -> Prop) :
  triple P m Q E ->
  (forall w, P' w -> P w) -> (forall a w, Q a w -> Q' a w) ->
  (forall e w, E e w -> E' e w) ->
  triple P' m Q' E'.
Proof.
  intros H HP HQ HE w Hw. specialize (H w (HP w Hw)).
  destruct (m w) as [[a|e] w1]; auto.
Qed.

Lemma triple_anything {A} (P : world -> Prop) (m : M A) : triple P m anything anything.
Proof. intros w _. now destruct (m w) as [[a|e] w1]. Qed.

Lemma triple_ret {A} (P : world -> Prop) (a : A) (E : error -> world -> Prop) :
  triple P (ret a) (fun a' w => a' = a /\ P w) E.
Proof. intros w HP. now split. Qed.

Lemma keeps_bind {A B} (I : world -> Prop) (m : M A) (k : A -> M B) :
  keeps I m -> (forall a, keeps I (k a)) -> keeps I (bind m k).
Proof. intros Hm Hk. now apply triple_bind with (R := fun _ => I). Qed.

Lemma keeps_try_catch {A} (I : world -> Prop) (m : M A) (handler : error -> M A) :
  keeps I m -> (forall e, keeps I (handler e)) -> keeps I (try_catch m handler).
Proof.
  intros Hm Hh w HI. unfold try_catch. specialize (Hm w HI).
  destruct (m w) as [[a|e] w1]; [exact Hm | now apply Hh].
Qed.

Lemma keeps_for_of {A} (I : world -> Prop) (l : list A) (body : A -> M unit) :
  (forall a, keeps I (body a)) -> keeps I (for_of l body).
Proof.
  intros Hb. induction l as [|a l IH]; [now intros w HI|].
  cbn [for_of]. apply keeps_bind; [apply Hb | intros _; exact IH].
Qed.

(** Operations that leave the world as it is. *)
Lemma keeps_pure {A} (I : world -> Prop) (m : M A) :
  (forall w, (m w).2 = w) -> keeps I m.
Proof.
  intros H w HI. specialize (H w). destruct (m w) as [[a|e] w1]; simpl in H; now subst.
Qed.

Lemma keeps_ret {A} (I : world -> Prop) (a : A) : keeps I (ret a).
Proof. now apply keeps_pure. Qed.

Lemma keeps_raise {A} (I : world -> Prop) (e : error) : keeps I (@raise A e).
Proof. now apply keeps_pure. Qed.

Lemma keeps_guard (I : world -> Prop) (b : bool) (e : error) : keeps I (guard b e).
Proof. apply keeps_pure. intros w. now destruct b. Qed.

Lemma keeps_readFile (I : world -> Prop) (p : string) : keeps I (readFile p).
Proof.
  apply keeps_pure. intros w. unfold readFile.
  destruct (fs w !! p) as [f|]; [destruct (readable f)|]; reflexivity.
Qed.

Lemma keeps_stat_size (I : world -> Prop) (p : string) : keeps I (stat_size p).
Proof.
  apply keeps_pure. intros w. unfold stat_size. now destruct (fs w !! p).
Qed.

Lemma keeps_download (I : world -> Prop) (answer : option string) :
  keeps I (download answer).
Proof. apply keeps_pure. intros w. now destruct answer. Qed.

Lemma keeps_glob_text (I : world -> Prop) (h : host) : keeps I (glob_text h).
Proof. apply keeps_pure. intros w. unfold glob_text. now destruct (text_files h). Qed.

(** *** The original file stays *)

Lemma present_log (p : string) (line : console_line) : keeps (present p) (log line).
Proof. now intros w H. Qed.

Lemma present_launch (p : string) (h : host) : keeps (present p) (launch h).
Proof. unfold launch. apply keeps_bind; [apply keeps_guard | now intros _ w H]. Qed.

Lemma present_newContext (p : string) (h : host) : keeps (present p) (newContext h).
Proof. unfold newContext. apply keeps_bind; [apply keeps_guard | now intros _ w H]. Qed.

Lemma present_context_close (p : string) (h : host) : keeps (present p) (context_close h).
Proof. unfold context_close. apply keeps_bind; [apply keeps_guard | now intros _ w H]. Qed.

Lemma present_browser_close (p : string) (h : host) : keeps (present p) (browser_close h).
Proof. unfold browser_close. apply keeps_bind; [apply keeps_guard | now intros _ w H]. Qed.

Lemma present_writeFile (p q c : string) : keeps (present p) (writeFile q c).
Proof.
  intros w H. unfold writeFile, present in *.
  destruct (fs w !! q) as [f|] eqn:Hq; [destruct (writable f)|]; cbn [fs set_fs];
    try exact H; rewrite lookup_insert_is_Some; destruct (decide (q = p)); auto.
Qed.

Lemma present_unlink (p q : string) : q <> p -> keeps (present p) (unlink q).
Proof.
  intros Hne w H. unfold unlink, present in *.
  destruct (fs w !! q) as [f|]; cbn [fs set_fs]; [|exact H].
  now rewrite lookup_delete_ne.
Qed.

Lemma present_update_file (p : string) (h : host) (o n f : string) :
  keeps (present p) (update_file h o n f).
Proof.
  intros w H. destruct (update_file_run h o n f w) as (lines & -> & _).
  unfold present in *. cbn [fs]. now apply lookup_alter_is_Some.
Qed.

Lemma present_updateReferences (p : string) (h : host) (o n : string) :
  keeps (present p) (updateReferences h o n).
Proof.
  unfold updateReferences. apply keeps_bind; [apply present_log|]. intros _.
  apply keeps_bind; [apply keeps_glob_text|]. intros files.
  apply keeps_for_of. intros f. apply present_update_file.
Qed.

Ltac keeps_present :=
  repeat first
    [ apply present_log | apply present_launch | apply present_newContext
    | apply present_context_close | apply present_browser_close
    | apply present_writeFile | apply present_updateReferences
    | apply keeps_guard | apply keeps_readFile | apply keeps_stat_size
    | apply keeps_download | apply keeps_ret | apply keeps_raise
    | (apply keeps_bind; [|intros ?]) ].

Lemma present_conversion_session (p : string) (h : host) (file : candidate) :
  keeps (present p) (conversion_session h file).
Proof. unfold conversion_session, newPage. keeps_present. Qed.

(** *** The gate *)

(** C2: the gate keeps the artifact exactly when it is strictly smaller than
    the source, and equal sizes keep the original; [convert] goes on to the
    reference rewrite in the first case and discards the artifact in the
    second. *)
Theorem gate_strict (A S : nat) :
  (SizeGated.gate A S = KeepArtifact <-> (A < S)%nat) /\
  (SizeGated.gate A S = KeepOriginal <-> (S <= A)%nat) /\
  SizeGated.gate S S = KeepOriginal /\
  SizeGated.gate 900 1000 = KeepArtifact /\
  SizeGated.gate 1000 1000 = KeepOriginal /\
  (forall h file avifPath w avif svg,
     fs w !! avifPath = Some avif -> fs w !! path file = Some svg ->
     String.length (data avif) = A -> String.length (data svg) = S ->
     SizeGated.settle h file avifPath w =
     if (A <? S)%nat
     then (updateReferences h (name file) (svg_to_avif (name file)) ;;;
           log (LogCompleted (name file)) ;;;
           context_close h ;;; browser_close h ;;;
           log (LogDeleting (name file)) ;;;
           unlink (path file))
            (log (LogReplacing A S) w).2
     else (unlink avifPath ;;; context_close h ;;; browser_close h)
            (log (LogKeepingSvg A S) w).2).
Proof.
  unfold SizeGated.gate. repeat split; try reflexivity.
  - destruct (Nat.leb_spec S A); [discriminate | lia].
  - destruct (Nat.leb_spec S A); [lia | reflexivity].
  - destruct (Nat.leb_spec S A); [lia | discriminate].
  - destruct (Nat.leb_spec S A); [reflexivity | lia].
  - now rewrite Nat.leb_refl.
  - intros h file avifPath w avif svg Ha Hs <- <-.
    unfold SizeGated.settle, SizeGated.gate, bind at 1 2, stat_size.
    rewrite Ha, Hs. rewrite Nat.ltb_antisym.
    now destruct (String.length (data svg) <=? String.length (data avif))%nat.
Qed.

Lemma gate_strict_witness :
  SizeGated.settle sample_host (sample_candidate "logo.svg") "/proj/logo.avif"
    (conversion_session sample_host (sample_candidate "logo.svg")
       (sample_world "logo.svg" "")).2 =
  (updateReferences sample_host "logo.svg" "logo.avif" ;;;
   log (LogCompleted "logo.svg") ;;;
   context_close sample_host ;;; browser_close sample_host ;;;
   log (LogDeleting "logo.svg") ;;;
   unlink "/proj/logo.svg")
    (log (LogReplacing 4 31)
       (conversion_session sample_host (sample_candidate "logo.svg")
          (sample_world "logo.svg" "")).2).2.
Proof.
  destruct (gate_strict 4 31) as (_ & _ & _ & _ & _ & H).
  apply (H sample_host (sample_candidate "logo.svg") "/proj/logo.avif"%string
           (conversion_session sample_host (sample_candidate "logo.svg")
              (sample_world "logo.svg" "")).2
           (File "avif" true true) (File (svg_with_width "100") true true)).
  - vm_compute. reflexivity.
  - vm_compute. reflexivity.
  - reflexivity.
  - reflexivity.
Defined.

(** *** [convert] *)

Lemma writeFile_present (P : world -> Prop) (q c : string) :
  triple P (writeFile q c) (fun _ w => present q w) anything.
Proof.
  intros w _. unfold writeFile, present.
  destruct (fs w !! q) as [f|] eqn:Hq; [destruct (writable f)|]; cbn [fs set_fs anything];
    try exact I; rewrite lookup_insert_eq; eauto.
Qed.

(** When the session completes, the artifact is at the path derived from the
    name. *)
Lemma conversion_session_returns (h : host) (file : candidate) (w w' : world)
    (avifPath : string) :
  conversion_session h file w = (Ok avifPath, w') ->
  avifPath = path_join (dir file) (svg_to_avif (name file)) /\ present avifPath w'.
Proof.
  intros Hrun.
  assert (H : triple (fun _ => True) (conversion_session h file)
                (fun p w' => p = path_join (dir file) (svg_to_avif (name file)) /\
                             present p w') anything).
  { unfold conversion_session.
    do 11 (eapply triple_bind; [apply triple_anything | intros ?]).
    eapply triple_bind; [apply writeFile_present | intros ?].
    eapply triple_conseq;
      [apply (triple_ret (present (path_join (dir file) (svg_to_avif (name file)))))
      | auto | | intros e w1 He; exact He].
    now intros p w1 [-> Hp]. }
  specialize (H w I). now rewrite Hrun in H.
Qed.

Lemma present_lookup (p : string) (w : world) : present p w -> fs w !! p <> None.
Proof. intros [f Hf]. now rewrite Hf. Qed.

(** The steps behind the gate (and all of the second version's tail) delete
    the original exactly when none of them raises. *)
Lemma settle_deletes (h : host) (file : candidate) (w : world) :
  present (path file) w ->
  fs (RasterOnly.settle h file w).2 !! path file = None <->
  rewrite_completes h /\ context_close_ok h = true /\ browser_close_ok h = true.
Proof.
  intros Hp. rewrite rewrite_completes_iff. unfold RasterOnly.settle.
  pose proof (present_updateReferences (path file) h (name file)
                (svg_to_avif (name file)) w Hp) as Hkeep.
  unfold bind at 1.
  destruct (text_files h) as [files|] eqn:Hfiles.
  - destruct (updateReferences_run h (name file) (svg_to_avif (name file)) w files Hfiles)
      as (lines & Hrun & _).
    rewrite Hrun in *. unfold bind, log, context_close, browser_close, guard, unlink.
    destruct (context_close_ok h), (browser_close_ok h); cbn;
      try (split; [intros H; now apply present_lookup in Hkeep | intros (_ & ? & ?); discriminate]).
    destruct Hkeep as [f Hf]. cbn [fs] in Hf. rewrite Hf. cbn.
    rewrite lookup_delete_eq. split; eauto.
  - unfold updateReferences, glob_text, bind, log in *. rewrite Hfiles in *.
    cbn in *. split; [intros H; now apply present_lookup in Hkeep|].
    intros ([? ?] & _); discriminate.
Qed.

(** C3, as the code has it, for an original that exists and an artifact path
    that differs from its path (as it does for every name that contains
    [.svg]): in the first version the original is deleted exactly when the
    session completes, the gate keeps the artifact, [updateReferences] does
    not raise and the browser context and the browser close without error;
    otherwise it stays.  In the second version there is no gate: the original
    is deleted exactly when the session completes, [updateReferences] does
    not raise and both closings succeed. *)
Theorem original_deleted_iff (h : host) (file : candidate) (w : world) :
  present (path file) w ->
  path_join (dir file) (svg_to_avif (name file)) <> path file ->
  (fs (SizeGated.convert h file w).2 !! path file = None <->
   exists A S,
     session_sizes h file w = Some (A, S) /\
     SizeGated.gate A S = KeepArtifact /\
     rewrite_completes h /\
     context_close_ok h = true /\ browser_close_ok h = true) /\
  (fs (RasterOnly.convert h file w).2 !! path file = None <->
   is_Some (session_sizes h file w) /\
   rewrite_completes h /\
   context_close_ok h = true /\ browser_close_ok h = true).
Proof.
  intros Hp Hne.
  pose proof (present_conversion_session (path file) h file w Hp) as Hkeep.
  unfold SizeGated.convert, RasterOnly.convert, session_sizes, bind.
  destruct (conversion_session h file w) as [[p|e] w1] eqn:Hs.
  - destruct (conversion_session_returns h file w w1 p Hs) as [-> [fa Hfa]].
    destruct Hkeep as [fo Hfo]. rewrite Hfa, Hfo.
    assert (Hp1 : present (path file) w1) by (now exists fo).
    split.
    + unfold SizeGated.settle, bind at 1 2, stat_size. rewrite Hfa, Hfo.
      destruct (SizeGated.gate (String.length (data fa)) (String.length (data fo)))
        eqn:Hgate.
      * lazymatch goal with
        | |- _ <-> ?R =>
            change (fs (RasterOnly.settle h file
                          (World (fs w1) (browser_open w1) (context_open w1)
                             (LogReplacing (String.length (data fa))
                                (String.length (data fo)) :: console w1))).2
                    !! path file = None <-> R)
        end.
        rewrite settle_deletes by (now exists fo).
        split; [intros H; eauto 10 | now intros (A & S & _ & _ & H)].
      * split; [|intros (A & S & [= <- <-] & HA & _); congruence].
        intros H. exfalso. revert H. apply present_lookup.
        assert (Hk : keeps (present (path file))
                       (log (LogKeepingSvg (String.length (data fa))
                               (String.length (data fo))) ;;;
                        unlink (path_join (dir file) (svg_to_avif (name file))) ;;;
                        context_close h ;;; browser_close h)).
        { apply keeps_bind; [apply present_log | intros _].
          apply keeps_bind; [apply present_unlink; exact Hne | intros _].
          keeps_present. }
        specialize (Hk w1 Hp1).
        destruct ((log _ ;;; unlink _ ;;; context_close h ;;; browser_close h) w1)
          as [[[]|e] w2]; exact Hk.
    + rewrite settle_deletes by exact Hp1. split; [intros H; split; eauto | tauto].
  - cbn [snd]. split; (split; [intros H; now apply present_lookup in Hkeep|]).
    + now intros (A & S & ? & _).
    + now intros ([? ?] & _).
Qed.

Lemma original_deleted_iff_witness :
  fs (SizeGated.convert sample_host (sample_candidate "logo.svg")
        (sample_world "logo.svg" "<img src='logo.svg'>")).2 !! "/proj/logo.svg"%string = None /\
  fs (RasterOnly.convert sample_host (sample_candidate "logo.svg")
        (sample_world "logo.svg" "<img src='logo.svg'>")).2 !! "/proj/logo.svg"%string = None.
Proof.
  destruct (original_deleted_iff sample_host (sample_candidate "logo.svg")
              (sample_world "logo.svg" "<img src='logo.svg'>")) as [H1 H2].
  - vm_compute. eauto.
  - vm_compute. discriminate.
  - assert (Hr : rewrite_completes sample_host)
      by (apply rewrite_completes_iff; vm_compute; eauto).
    split.
    + apply H1. exists 4%nat, 31%nat. split; [vm_compute; reflexivity|].
      split; [reflexivity|]. split; [exact Hr|]. now split.
    + apply H2. split; [vm_compute; eauto|]. split; [exact Hr|]. now split.
Defined.

(** C3 as stated fails.  The second version deletes the original although
    the artifact is larger, and the first version keeps it when the gate
    accepts and the rewrite completes but the browser context fails to
    close. *)
Lemma original_deleted_without_gate :
  session_sizes bloating_host (sample_candidate "logo.svg")
    (sample_world "logo.svg" "<img src='logo.svg'>") = Some (40%nat, 31%nat) /\
  SizeGated.gate 40 31 = KeepOriginal /\
  fs (RasterOnly.convert bloating_host (sample_candidate "logo.svg")
        (sample_world "logo.svg" "<img src='logo.svg'>")).2 !! "/proj/logo.svg"%string = None /\
  session_sizes unclosable_host (sample_candidate "logo.svg")
    (sample_world "logo.svg" "<img src='logo.svg'>") = Some (4%nat, 31%nat) /\
  SizeGated.gate 4 31 = KeepArtifact /\
  (updateReferences unclosable_host "logo.svg" "logo.avif"
     (sample_world "logo.svg" "<img src='logo.svg'>")).1 = Ok tt /\
  fs (SizeGated.convert unclosable_host (sample_candidate "logo.svg")
        (sample_world "logo.svg" "<img src='logo.svg'>")).2 !! "/proj/logo.svg"%string =
    Some (File (svg_with_width "100") true true).
Proof. repeat split; vm_compute; reflexivity. Qed.

(** C7, as the code has it: when the gate keeps the original, the artifact is
    unlinked and is gone afterwards; unlinking it a second time changes
    nothing but is rejected with [ENOENT]. *)
Theorem rejected_artifact_removed (h : host) (file : candidate) (w : world) (A S : nat) :
  session_sizes h file w = Some (A, S) ->
  SizeGated.gate A S = KeepOriginal ->
  fs (SizeGated.convert h file w).2 !! path_join (dir file) (svg_to_avif (name file)) = None /\
  unlink (path_join (dir file) (svg_to_avif (name file))) (SizeGated.convert h file w).2 =
    (Raise (ENOENT (path_join (dir file) (svg_to_avif (name file)))),
     (SizeGated.convert h file w).2).
Proof.
  unfold session_sizes.
  destruct (conversion_session h file w) as [[p|e] w1] eqn:Hs; [|discriminate].
  assert (Hc : SizeGated.convert h file w = SizeGated.settle h file p w1)
    by (unfold SizeGated.convert, bind; now rewrite Hs).
  rewrite Hc. clear Hc.
  destruct (conversion_session_returns h file w w1 p Hs) as [-> _].
  destruct (fs w1 !! path_join (dir file) (svg_to_avif (name file))) as [fa|] eqn:Hfa;
    [|discriminate].
  destruct (fs w1 !! path file) as [fo|] eqn:Hfo; [|discriminate].
  intros [= <- <-] Hgate.
  assert (Hgone : fs (SizeGated.settle h file
                        (path_join (dir file) (svg_to_avif (name file))) w1).2
                  !! path_join (dir file) (svg_to_avif (name file)) = None).
  { unfold SizeGated.settle, bind, stat_size. rewrite Hfa, Hfo, Hgate.
    unfold log, unlink, context_close, browser_close, guard, bind. cbn [fs].
    rewrite Hfa.
    destruct (context_close_ok h), (browser_close_ok h); cbn;
      apply lookup_delete_eq. }
  split; [exact Hgone|]. unfold unlink at 1. now rewrite Hgone.
Qed.

Lemma rejected_artifact_removed_witness :
  fs (SizeGated.convert bloating_host (sample_candidate "logo.svg")
        (sample_world "logo.svg" "<img src='logo.svg'>")).2 !! "/proj/logo.avif"%string = None.
Proof.
  apply (rejected_artifact_removed bloating_host (sample_candidate "logo.svg")
           (sample_world "logo.svg" "<img src='logo.svg'>") 40 31).
  - vm_compute. reflexivity.
  - reflexivity.
Defined.

(** C7 as stated fails: the cleanup is a plain [fs.unlink], and a second one
    on the removed artifact raises. *)
Lemma second_unlink_raises :
  (SizeGated.convert bloating_host (sample_candidate "logo.svg")
     (sample_world "logo.svg" "<img src='logo.svg'>")).1 = Ok tt /\
  (unlink "/proj/logo.avif"
     (SizeGated.convert bloating_host (sample_candidate "logo.svg")
        (sample_world "logo.svg" "<img src='logo.svg'>")).2).1 =
  Raise (ENOENT "/proj/logo.avif").
Proof. split; vm_compute; reflexivity. Qed.

Lemma browser_close_closed (P : world -> Prop) (h : host) :
  triple P (browser_close h) (fun _ => closed) anything.
Proof.
  intros w _. unfold browser_close, bind, guard.
  now destruct (browser_close_ok h).
Qed.

Lemma closed_log (line : console_line) : triple closed (log line) (fun _ => closed) anything.
Proof. now intros w H. Qed.

Lemma closed_unlink (p : string) : triple closed (unlink p) (fun _ => closed) anything.
Proof. intros w H. unfold unlink. now destruct (fs w !! p). Qed.

Lemma settle_closed (h : host) (file : candidate) :
  triple (fun _ => True) (RasterOnly.settle h file) (fun _ => closed) anything.
Proof.
  unfold RasterOnly.settle.
  do 3 (eapply triple_bind; [apply triple_anything | intros ?]).
  eapply triple_bind; [apply browser_close_closed | intros ?].
  eapply triple_bind; [apply closed_log | intros ?].
  apply closed_unlink.
Qed.

(** C8, as the code has it: whenever [convert] returns, also on the early
    return after the gate rejects the artifact, the browser context and the
    browser are closed. *)
Theorem browser_released_on_return (h : host) (file : candidate) (w : world) :
  ((SizeGated.convert h file w).1 = Ok tt -> closed (SizeGated.convert h file w).2) /\
  ((RasterOnly.convert h file w).1 = Ok tt -> closed (RasterOnly.convert h file w).2).
Proof.
  split.
  - assert (H : triple (fun _ => True) (SizeGated.convert h file)
                  (fun _ => closed) anything).
    { unfold SizeGated.convert, SizeGated.settle.
      do 3 (eapply triple_bind; [apply triple_anything | intros ?]).
      destruct (SizeGated.gate _ _).
      - eapply triple_bind; [apply triple_anything | intros ?].
        eapply triple_conseq; [apply settle_closed | auto ..].
      - do 3 (eapply triple_bind; [apply triple_anything | intros ?]).
        apply browser_close_closed. }
    specialize (H w I). destruct (SizeGated.convert h file w) as [[[]|e] w1];
      [now intros _ | discriminate].
  - assert (H : triple (fun _ => True) (RasterOnly.convert h file)
                  (fun _ => closed) anything).
    { unfold RasterOnly.convert.
      eapply triple_bind; [apply triple_anything | intros ?].
      eapply triple_conseq; [apply settle_closed | auto ..]. }
    specialize (H w I). destruct (RasterOnly.convert h file w) as [[[]|e] w1];
      [now intros _ | discriminate].
Qed.

Lemma browser_released_on_return_witness :
  SizeGated.gate 40 31 = KeepOriginal /\
  closed (SizeGated.convert bloating_host (sample_candidate "logo.svg")
            (sample_world "logo.svg" "<img src='logo.svg'>")).2 /\
  closed (RasterOnly.convert sample_host (sample_candidate "logo.svg")
            (sample_world "logo.svg" "<img src='logo.svg'>")).2.
Proof.
  split; [reflexivity|].
  split.
  - apply (browser_released_on_return bloating_host (sample_candidate "logo.svg")
             (sample_world "logo.svg" "<img src='logo.svg'>")).
    vm_compute. reflexivity.
  - apply (browser_released_on_return sample_host (sample_candidate "logo.svg")
             (sample_world "logo.svg" "<img src='logo.svg'>")).
    vm_compute. reflexivity.
Defined.

(** C8 as stated fails on the paths that raise: when the converter does not
    answer, [convert] raises and leaves the browser and its context open. *)
Lemma browser_left_open_on_error :
  (SizeGated.convert stalling_host (sample_candidate "logo.svg")
     (sample_world "logo.svg" "<img src='logo.svg'>")).1 = Raise BrowserError /\
  browser_open (SizeGated.convert stalling_host (sample_candidate "logo.svg")
                  (sample_world "logo.svg" "<img src='logo.svg'>")).2 = true /\
  context_open (SizeGated.convert stalling_host (sample_candidate "logo.svg")
                  (sample_world "logo.svg" "<img src='logo.svg'>")).2 = true.
Proof. repeat split; vm_compute; reflexivity. Qed.

(** *** What [updateReferences] leaves alone *)

Lemma updateReferences_fs (h : host) (o n : string) (w : world) :
  fs (updateReferences h o n w).2 =
  match text_files h with
  | Some files => rounds h o n files (fs w)
  | None => fs w
  end.
Proof.
  destruct (text_files h) as [files|] eqn:Hfiles.
  - destruct (updateReferences_run h o n w files Hfiles) as (lines & -> & _).
    reflexivity.
  - unfold updateReferences, glob_text, bind, log. now rewrite Hfiles.
Qed.

Lemma rewritten_idle (h : host) (o n : string) (fl : file) :
  readable fl = false \/ writable fl = false \/
  includes (str (data fl)) (str o) = false ->
  rewritten h o n fl = fl.
Proof.
  unfold rewritten. intros [H | [H | H]]; rewrite H.
  - reflexivity.
  - destruct (readable fl && includes (str (data fl)) (str o)); [|reflexivity].
    now destruct (replace_result h (data fl) o n).
  - now rewrite andb_false_r.
Qed.

Lemma lookup_rounds_idle (h : host) (o n : string) (files : list string)
    (m : gmap string file) (p : string) (fl : file) :
  m !! p = Some fl -> rewritten h o n fl = fl ->
  rounds h o n files m !! p = Some fl.
Proof.
  unfold rounds. revert m. induction files as [|f files IH]; intros m Hm Hfl;
    [exact Hm|].
  cbn [foldl]. apply IH; [|exact Hfl].
  destruct (decide (path_join (currentDir h) f = p)) as [->|Hne].
  - rewrite lookup_alter_eq, Hm. cbn. now rewrite Hfl.
  - now rewrite lookup_alter_ne.
Qed.

Lemma rounds_is_Some (h : host) (o n : string) (files : list string)
    (m : gmap string file) (p : string) :
  is_Some (rounds h o n files m !! p) <-> is_Some (m !! p).
Proof.
  unfold rounds. revert m. induction files as [|f files IH]; intros m; [reflexivity|].
  cbn [foldl]. rewrite IH. apply lookup_alter_is_Some.
Qed.

(** X2: [updateReferences] writes a file only when it contains the name: a
    file that does not contain [originalName], or cannot be read, or cannot be
    written, is afterwards exactly as it was, wherever and however often
    [glob] lists it. *)
Theorem updateReferences_untouched (h : host) (o n : string) (w : world)
    (p : string) (fl : file) :
  fs w !! p = Some fl ->
  readable fl = false \/ writable fl = false \/
  includes (str (data fl)) (str o) = false ->
  fs (updateReferences h o n w).2 !! p = Some fl.
Proof.
  intros Hp Hidle. rewrite updateReferences_fs.
  destruct (text_files h) as [files|]; [|exact Hp].
  apply lookup_rounds_idle; [exact Hp | now apply rewritten_idle].
Qed.

Lemma updateReferences_untouched_witness :
  fs (updateReferences sample_host "logo.svg" "logo.avif"
        (sample_world "icon.svg" "<img src='icon.svg'>")).2 !! "/proj/index.html"%string =
  Some (File "<img src='icon.svg'>" true true).
Proof.
  apply (updateReferences_untouched sample_host "logo.svg" "logo.avif"
           (sample_world "icon.svg" "<img src='icon.svg'>")).
  - vm_compute. reflexivity.
  - right. right. vm_compute. reflexivity.
Defined.

(** X3: [updateReferences] creates no file and removes none, and it changes
    no path but those of the files that [glob] lists; when [glob] rejects it
    changes nothing. *)
Theorem updateReferences_frame (h : host) (o n : string) (w : world) (p : string) :
  (forall files, text_files h = Some files ->
     forall f, f ∈ files -> path_join (currentDir h) f <> p) ->
  fs (updateReferences h o n w).2 !! p = fs w !! p /\
  (forall q, is_Some (fs (updateReferences h o n w).2 !! q) <-> is_Some (fs w !! q)) /\
  (text_files h = None -> fs (updateReferences h o n w).2 = fs w).
Proof.
  intros Hout. rewrite updateReferences_fs.
  destruct (text_files h) as [files|].
  - split; [|split].
    + apply lookup_rounds_other. now apply Hout.
    + intros q. apply rounds_is_Some.
    + discriminate.
  - repeat split; auto.
Qed.

Lemma updateReferences_frame_witness :
  fs (updateReferences sample_host "logo.svg" "logo.avif"
        (sample_world "logo.svg" "<img src='logo.svg'>")).2 !! "/proj/logo.svg"%string =
  fs (sample_world "logo.svg" "<img src='logo.svg'>") !! "/proj/logo.svg"%string.
Proof.
  apply (updateReferences_frame sample_host "logo.svg" "logo.avif"
           (sample_world "logo.svg" "<img src='logo.svg'>") "/proj/logo.svg").
  intros files [= <-] f Hf.
  repeat (apply elem_of_cons in Hf as [->|Hf]; [vm_compute; discriminate|]).
  now apply elem_of_nil in Hf.
Defined.

(** *** Every listed file is rewritten *)

(** X4: when [glob] answers with distinct files, every listed file that can
    be read and written and contains the name holds afterwards what
    [content.replace] returns for its content, and [updateReferences]
    returns. *)
Theorem updateReferences_rewrites (h : host) (o n : string) (w : world)
    (files : list string) (g : string) fl (updated : string) :
  text_files h = Some files -> NoDup files -> g ∈ files ->
  fs w !! path_join (currentDir h) g = Some fl ->
  readable fl = true -> writable fl = true ->
  includes (str (data fl)) (str o) = true ->
  replace_result h (data fl) o n = Some updated ->
  (updateReferences h o n w).1 = Ok tt /\
  fs (updateReferences h o n w).2 !! path_join (currentDir h) g =
    Some (File updated true true).
Proof.
  intros Hfiles Hnd Hg Hl Hr Hw Hi Hu.
  destruct (updateReferences_run h o n w files Hfiles) as (lines & -> & _).
  split; [reflexivity|]. cbn [snd fs].
  rewrite lookup_rounds by assumption. rewrite Hl. cbn.
  unfold rewritten. now rewrite Hr, Hi, Hu, Hw.
Qed.

Lemma updateReferences_rewrites_witness :
  (updateReferences sample_host "logo.svg" "logo.avif"
     (sample_world "logo.svg" "<img src='logo.svg'>")).1 = Ok tt /\
  fs (updateReferences sample_host "logo.svg" "logo.avif"
        (sample_world "logo.svg" "<img src='logo.svg'>")).2
    !! path_join (currentDir sample_host) "index.html" =
    Some (File "<img src='logo.avif'>" true true).
Proof.
  apply (updateReferences_rewrites sample_host "logo.svg" "logo.avif"
           (sample_world "logo.svg" "<img src='logo.svg'>")
           ["index.html"; "locked.css"; "readme.md"]%string "index.html"
           (File "<img src='logo.svg'>" true true)).
  - reflexivity.
  - apply NoDup_ListNoDup. repeat constructor; cbn; intuition discriminate.
  - apply list_elem_of_here.
  - vm_compute. reflexivity.
  - reflexivity.
  - reflexivity.
  - vm_compute. reflexivity.
  - vm_compute. reflexivity.
Defined.

(** *** File names whose only special character is the dot *)

Lemma parse_dotted_name (p : chars) (ts : list regex) (l : last_term) :
  dotted_name p = true ->
  parse p [] (Frame 0 [] ts l) 0 =
  Compiled (alternative (rev (name_term <$> p) ++ ts), 0).
Proof.
  revert ts l. induction p as [|c p IH]; intros ts l H; [reflexivity|].
  cbn [dotted_name forallb] in H. apply andb_true_iff in H as [Hc Hp].
  assert (Hstep : parse (c :: p) [] (Frame 0 [] ts l) 0 =
                  parse p [] (Frame 0 [] (name_term c :: ts) LAtom) 0).
  { unfold name_term. destruct (ascii_eqb c ".") eqn:Hdot.
    - apply ascii_eqb_eq in Hdot. subst c. reflexivity.
    - cbn [orb negb] in Hc. apply negb_true_iff in Hc.
      unfold syntax_character in Hc. rewrite Hdot in Hc.
      repeat (apply orb_false_iff in Hc as [Hc ?]).
      cbn [parse].
      repeat match goal with
             | E : ascii_eqb c _ = false |- _ => rewrite E; clear E
             end.
      reflexivity. }
  rewrite Hstep, IH by exact Hp.
  cbn [fmap list_fmap rev]. now rewrite <- app_assoc.
Qed.

Lemma RegExp_dotted_name (p : chars) :
  dotted_name p = true ->
  RegExp p = Compiled (alternative (rev (name_term <$> p)), 0).
Proof.
  intros H. unfold RegExp. rewrite parse_dotted_name by exact H.
  now rewrite app_nil_r.
Qed.

Lemma startsAlike_snoc (p : chars) (a : ascii) (s : chars) :
  startsAlike (p ++ [a]) s =
  startsAlike p s &&
  match drop (length p) s with
  | ch :: _ => if ascii_eqb a "." then negb (line_terminator ch) else ascii_eqb ch a
  | [] => false
  end.
Proof.
  revert s. induction p as [|b p IH]; intros [|c s]; simpl; try reflexivity.
  - now rewrite andb_true_r.
  - now rewrite IH, andb_assoc.
Qed.

Lemma startsAlike_length (p s : chars) :
  startsAlike p s = true -> (length p <= length s)%nat.
Proof.
  revert s. induction p as [|a p IH]; intros [|c s]; simpl; try lia; try discriminate.
  intros [_ H]%andb_true_iff. apply IH in H. lia.
Qed.

(** The matcher of such a name consumes a stretch that is the name up to its
    dots. *)
Lemma matcher_dotted_name (p : chars) (x : mstate) (c : mstate -> option mstate) :
  matcher (alternative (rev (name_term <$> p))) x c =
  if startsAlike p (rest x)
  then c (MState (drop (length p) (rest x)) (endIndex x + length p) (captures x))
  else None.
Proof.
  revert x c. induction p as [|a p IH] using rev_ind; intros x c.
  - simpl. rewrite Nat.add_0_r. now destruct x.
  - rewrite fmap_app, rev_app_distr. simpl. rewrite IH, startsAlike_snoc.
    destruct (startsAlike p (rest x)); simpl; [|reflexivity].
    rewrite length_app. simpl.
    assert (Hd : forall ch tl, drop (length p) (rest x) = ch :: tl ->
                   drop (length p + 1) (rest x) = tl).
    { intros ch tl Hd. rewrite <- drop_drop, Hd. reflexivity. }
    unfold name_term.
    destruct (drop (length p) (rest x)) as [|ch tl] eqn:Hdrop;
      destruct (ascii_eqb a "."); cbn [matcher rest endIndex captures];
      try reflexivity.
    + destruct (line_terminator ch); [reflexivity|]. cbn [negb].
      f_equal. f_equal; [symmetry; now apply (Hd ch) | lia].
    + destruct (ascii_eqb ch a); [|reflexivity].
      f_equal. f_equal; [symmetry; now apply (Hd ch) | lia].
Qed.

Lemma match_at_dotted_name (p : chars) (idx : nat) (s : chars) :
  match_at (alternative (rev (name_term <$> p))) 0 idx s =
  if startsAlike p s then Some (MatchResult idx (idx + length p) []) else None.
Proof.
  unfold match_at. rewrite matcher_dotted_name. cbn [rest endIndex captures].
  now destruct (startsAlike p s).
Qed.

(** A replacement text without [$] stands for itself. *)
Lemma getSubstitution_plain (matched before after : chars)
    (caps : list (option chars)) (t : chars) :
  "$" ∉ t -> getSubstitution matched before after caps t = t.
Proof.
  induction t as [|c t IH]; intros H; [reflexivity|].
  apply not_elem_of_cons in H as [Hc Ht]. specialize (IH Ht).
  destruct c as [[] [] [] [] [] [] [] []];
    first [ now contradiction Hc | cbn [getSubstitution]; now rewrite IH ].
Qed.

Lemma length_nonempty {A} (l : list A) : l <> [] -> length l = S (pred (length l)).
Proof. now destruct l. Qed.

Lemma startsAlike_nil (p : chars) : p <> [] -> startsAlike p [] = false.
Proof. now destruct p. Qed.

Lemma replace_every_alike_nil (fuel : nat) (p n : chars) :
  replace_every_alike fuel [] p n = [].
Proof. destruct fuel; [reflexivity | now destruct p]. Qed.

Lemma replace_every_alike_cons (fuel : nat) (ch : ascii) (s p n : chars) :
  p <> [] ->
  replace_every_alike (S fuel) (ch :: s) p n =
  if startsAlike p (ch :: s)
  then n ++ replace_every_alike fuel (drop (length p) (ch :: s)) p n
  else ch :: replace_every_alike fuel s p n.
Proof. now destruct p. Qed.

Section DottedName.

Variables p newName : chars.
Hypothesis p_nonempty : p <> [].
Hypothesis newName_plain : "$" ∉ newName.

Let r : regex := alternative (rev (name_term <$> p)).

(** The characters that a match covers are passed over. *)
Lemma replace_scan_skip (seen s : chars) (skip : nat) :
  (skip <= length s)%nat ->
  replace_scan r 0 newName seen s skip =
  replace_scan r 0 newName (rev (take skip s) ++ seen) (drop skip s) 0.
Proof.
  revert seen s. induction skip as [|skip IH]; intros seen s H.
  - now rewrite take_0, drop_0.
  - destruct s as [|ch s]; [simpl in H; lia|].
    cbn [replace_scan take drop rev]. rewrite IH by (simpl in H; lia).
    now rewrite <- app_assoc.
Qed.

Lemma replace_scan_dotted_name (fuel : nat) (seen s : chars) :
  (length s < fuel)%nat ->
  replace_scan r 0 newName seen s 0 = replace_every_alike fuel s p newName.
Proof.
  revert seen s. induction fuel as [|fuel IH]; intros seen s H; [lia|].
  pose proof (length_nonempty p p_nonempty) as Hlen.
  destruct s as [|ch s].
  - cbn [replace_scan]. unfold r. rewrite match_at_dotted_name.
    now rewrite startsAlike_nil, replace_every_alike_nil.
  - cbn [replace_scan]. unfold r at 1. rewrite match_at_dotted_name.
    rewrite replace_every_alike_cons by exact p_nonempty.
    destruct (startsAlike p (ch :: s)) eqn:Hs.
    + cbn [m_end m_index m_captures].
      replace (length seen + length p - length seen) with (length p) by lia.
      rewrite getSubstitution_plain by exact newName_plain.
      replace (length p =? 0) with false by (symmetry; apply Nat.eqb_neq; lia).
      apply startsAlike_length in Hs. cbn [length] in Hs.
      rewrite replace_scan_skip by lia.
      rewrite IH by (rewrite length_drop; cbn [length] in H; lia).
      rewrite Hlen at 2. cbn [drop]. now rewrite Nat.sub_1_r.
    + rewrite IH by (cbn [length] in H; lia). reflexivity.
Qed.

End DottedName.

Lemma startsWith_alike (p s : chars) : startsWith p s = true -> startsAlike p s = true.
Proof.
  revert s. induction p as [|a p IH]; intros [|b s]; simpl; try easy.
  intros [Hab Hp]%andb_true_iff. apply ascii_eqb_eq in Hab. subst b.
  rewrite (IH s Hp), andb_true_r.
  destruct (ascii_eqb a ".") eqn:Hdot; [|apply Ascii.eqb_refl].
  apply ascii_eqb_eq in Hdot. now subst a.
Qed.

(** Where nothing but the name itself is like the name, the two replacements
    agree. *)
Lemma replace_every_alike_literal (fuel : nat) (s p n : chars) :
  (forall i, startsAlike p (drop i s) = true -> startsWith p (drop i s) = true) ->
  replace_every_alike fuel s p n = replace_every_literal fuel s p n.
Proof.
  revert s. induction fuel as [|fuel IH]; intros s H; [reflexivity|].
  destruct p as [|a p]; [reflexivity|]. destruct s as [|c s]; [reflexivity|].
  cbn [replace_every_alike replace_every_literal].
  assert (Hsame : startsAlike (a :: p) (c :: s) = startsWith (a :: p) (c :: s)).
  { destruct (startsWith (a :: p) (c :: s)) eqn:Hw.
    - now apply startsWith_alike.
    - destruct (startsAlike (a :: p) (c :: s)) eqn:Hl; [|reflexivity].
      apply (H 0) in Hl. cbn [drop] in Hl. congruence. }
  rewrite Hsame. destruct (startsWith (a :: p) (c :: s)).
  - f_equal. apply IH. intros i. rewrite drop_drop. apply H.
  - f_equal. apply IH. intros i. apply (H (S i)).
Qed.

Lemma elem_of_take_list {A} (x : A) (n : nat) (l : list A) : x ∈ take n l -> x ∈ l.
Proof. intros H. rewrite <- (take_drop n l). apply elem_of_app. now left. Qed.

Lemma elem_of_drop_list {A} (x : A) (n : nat) (l : list A) : x ∈ drop n l -> x ∈ l.
Proof. intros H. rewrite <- (take_drop n l). apply elem_of_app. now right. Qed.

(** The new name has no character that neither the old name nor [.avif]
    has. *)
Lemma svg_to_avif_chars (c : ascii) (o : string) :
  c ∈ str (svg_to_avif o) -> c ∈ str o \/ c ∈ str ".avif".
Proof.
  unfold svg_to_avif, replace_string. rewrite str_unstr.
  destruct (indexOf (str ".svg") (str o)) as [pos|]; [|now left].
  change (getSubstitution _ _ _ _ _) with (str ".avif").
  intros [Hin | [Hin | Hin]%elem_of_app]%elem_of_app.
  - left. now apply elem_of_take_list in Hin.
  - now right.
  - left. now apply elem_of_drop_list in Hin.
Qed.

(** The new name has no [$] when the old one has none. *)
Lemma svg_to_avif_plain (o : string) : "$" ∉ str o -> "$" ∉ str (svg_to_avif o).
Proof.
  intros H [Hin | Hin]%svg_to_avif_chars; [contradiction|].
  revert Hin. cbn. rewrite !elem_of_cons, elem_of_nil. intuition discriminate.
Qed.

Lemma dotted_name_plain (p : chars) : dotted_name p = true -> "$" ∉ p.
Proof.
  induction p as [|c p IH]; intros H; [apply not_elem_of_nil|].
  cbn [dotted_name forallb] in H. apply andb_true_iff in H as [Hc Hp].
  apply not_elem_of_cons. split; [|now apply IH].
  intros <-. discriminate Hc.
Qed.

(** X5: for a file name that is not empty and whose only special character is
    the dot, and a new name without [$],
    [content.replace(new RegExp(originalName, "g"), newName)] returns the
    content with every stretch that is the name up to its dots replaced, from
    left to right; where the content has no such stretch but the name itself,
    that is the replacement of every literal occurrence.  The new name that
    [convert] derives from such a name has no [$]. *)
Theorem replace_dotted_name (h : host) (content o n : string) :
  o <> EmptyString -> dotted_name (str o) = true -> "$" ∉ str n ->
  replace_result h content o n = Some (replace_alike content o n) /\
  ((forall i, startsAlike (str o) (drop i (str content)) = true ->
              startsWith (str o) (drop i (str content)) = true) ->
   replace_result h content o n = Some (replace_literally content o n)) /\
  "$" ∉ str (svg_to_avif o).
Proof.
  intros Ho Hd Hn.
  assert (Hne : str o <> []) by (now destruct o).
  assert (Hres : replace_result h content o n = Some (replace_alike content o n)).
  { unfold replace_result, replace_regexp, replace_alike.
    rewrite RegExp_dotted_name by exact Hd.
    rewrite (replace_scan_dotted_name (str o) (str n) Hne Hn (S (String.length content)));
      [reflexivity|].
    rewrite length_str. lia. }
  split; [exact Hres|]. split.
  - intros Honly. rewrite Hres. unfold replace_alike, replace_literally.
    now rewrite replace_every_alike_literal.
  - now apply svg_to_avif_plain, dotted_name_plain.
Qed.

Lemma replace_dotted_name_witness :
  replace_result sample_host "<a href='logo.svg'>logo-svg</a>" "logo.svg" "logo.avif" =
    Some "<a href='logo.avif'>logo.avif</a>"%string /\
  replace_result sample_host "<img src='logo.svg'>" "logo.svg" "logo.avif" =
    Some (replace_literally "<img src='logo.svg'>" "logo.svg" "logo.avif").
Proof.
  split.
  - refine (eq_trans (proj1 (replace_dotted_name sample_host
              "<a href='logo.svg'>logo-svg</a>" "logo.svg" "logo.avif" _ _ _)) _).
    + discriminate.
    + reflexivity.
    + apply dotted_name_plain. reflexivity.
    + vm_compute. reflexivity.
  - apply (replace_dotted_name sample_host "<img src='logo.svg'>" "logo.svg" "logo.avif").
    + discriminate.
    + reflexivity.
    + apply dotted_name_plain. reflexivity.
    + intros i.
      do 21 (destruct i as [|i]; [vm_compute; intros H; first [exact H | reflexivity]|]).
      rewrite drop_ge by (vm_compute; lia). discriminate.
Defined.

(** *** File names that are no patterns *)

Lemma rounds_idle (h : host) (o n : string) (files : list string) (m : gmap string file) :
  (forall fl, rewritten h o n fl = fl) -> rounds h o n files m = m.
Proof.
  intros H. unfold rounds. revert m. induction files as [|f files IH]; intros m;
    [reflexivity|].
  cbn [foldl]. rewrite IH. apply map_eq. intros i.
  destruct (decide (path_join (currentDir h) f = i)) as [->|Hne].
  - rewrite lookup_alter_eq. destruct (m !! _) as [fl|]; cbn; [now rewrite H | reflexivity].
  - now rewrite lookup_alter_ne.
Qed.

(** X6: a file name that is no valid pattern (with a parenthesis that is not
    closed, or a [*], [+] or [?] with nothing to repeat) makes [new RegExp]
    throw in every round that reaches it; each of these failures is caught,
    so that [updateReferences] changes no file at all, and returns whenever
    [glob] answers. *)
Theorem invalid_pattern_changes_nothing (h : host) (o n : string) (w : world) :
  RegExp (str o) = SyntaxError ->
  fs (updateReferences h o n w).2 = fs w /\
  (is_Some (text_files h) -> (updateReferences h o n w).1 = Ok tt) /\
  (forall content, replace_result h content o n = None).
Proof.
  intros Hbad.
  assert (Hres : forall content, replace_result h content o n = None).
  { intros content. unfold replace_result, replace_regexp. now rewrite Hbad. }
  split; [|split; [|exact Hres]].
  - rewrite updateReferences_fs. destruct (text_files h) as [files|]; [|reflexivity].
    apply rounds_idle. intros fl. unfold rewritten. rewrite Hres.
    now destruct (readable fl && includes (str (data fl)) (str o)).
  - intros [files Hfiles].
    destruct (updateReferences_run h o n w files Hfiles) as (lines & -> & _).
    reflexivity.
Qed.

Lemma invalid_pattern_changes_nothing_witness :
  fs (updateReferences sample_host "logo(1.svg" "logo(1.avif"
        (sample_world "logo(1.svg" "<img src='logo(1.svg'>")).2 =
    fs (sample_world "logo(1.svg" "<img src='logo(1.svg'>") /\
  (updateReferences sample_host "logo(1.svg" "logo(1.avif"
     (sample_world "logo(1.svg" "<img src='logo(1.svg'>")).1 = Ok tt.
Proof.
  destruct (invalid_pattern_changes_nothing sample_host "logo(1.svg" "logo(1.avif"
              (sample_world "logo(1.svg" "<img src='logo(1.svg'>")) as (H1 & H2 & _).
  - reflexivity.
  - split; [exact H1 | apply H2; vm_compute; eauto].
Defined.

(** *** Which files are selected *)

(** A pattern of literal characters is found where the text occurs first. *)
Lemma exec_literal (p : chars) (idx : nat) (s : chars) :
  exec (alternative (rev (Char <$> p))) 0 idx s =
  (fun i => MatchResult (idx + i) (idx + i + length p) []) <$> indexOf p s.
Proof.
  revert idx. induction s as [|c s IH]; intros idx; cbn [exec indexOf];
    unfold match_at; rewrite matcher_literal; cbn [rest endIndex captures];
    destruct (startsWith p _); cbn; rewrite ?Nat.add_0_r; try reflexivity.
  rewrite IH. destruct (indexOf p s) as [i|]; cbn; [|reflexivity].
  do 2 f_equal; lia.
Qed.

Lemma has_image_test (content : string) :
  RasterOnly.has_image content = includes (str content) (str "<image").
Proof.
  unfold RasterOnly.has_image, exec_pattern, includes.
  change (RegExp (str "<image"))
    with (Compiled (alternative (rev (Char <$> str "<image")), 0)).
  cbv beta iota. rewrite exec_literal.
  now destruct (indexOf (str "<image") (str content)).
Qed.

(** X7: [/<image/.test(content)] holds exactly when the text [<image] occurs
    somewhere in the content, and a file without that text is never selected
    by the second version, whatever its width. *)
Theorem has_image_includes (cwd file content : string) :
  RasterOnly.has_image content = includes (str content) (str "<image") /\
  (includes (str content) (str "<image") = false ->
   RasterOnly.select cwd file content = None).
Proof.
  split; [apply has_image_test|]. intros H.
  unfold RasterOnly.select. rewrite has_image_test, H.
  now rewrite orb_true_r.
Qed.

Lemma has_image_includes_witness :
  RasterOnly.select "/proj" "logo.svg" "<svg width='100'><path/></svg>" = None.
Proof.
  apply (has_image_includes "/proj" "logo.svg" "<svg width='100'><path/></svg>").
  vm_compute. reflexivity.
Defined.

(** X8: a file whose first [<svg width=] with an opening quote is followed by
    a value that is not empty, up to the next double quote and on one line,
    is selected by the first version exactly when it has at least 10240
    bytes, and by the second version exactly when it contains [<image]; the
    candidate has the joined path, the base name, the content, and the width
    computed from that value. *)
Theorem select_with_width (cwd file : string) (size : nat) (content : string)
    (pre v post : chars) :
  str content = pre ++ width_prefix ++ v ++ "034" :: post ->
  indexOf width_prefix (str content) = Some (length pre) ->
  plain_value v -> v <> [] ->
  SizeGated.select cwd file size content =
    (if (size <? 10 * 1024)%nat then None
     else Some (Candidate (path_join cwd file) (path_dirname (path_join cwd file))
                  (path_basename file) content (target_width v))) /\
  RasterOnly.select cwd file content =
    (if includes (str content) (str "<image")
     then Some (Candidate (path_join cwd file) (path_dirname (path_join cwd file))
                  (path_basename file) content (target_width v))
     else None).
Proof.
  intros Heq Hfirst Hv Hne.
  assert (Hw : declared_width content = Some (unstr v)).
  { rewrite <- (unstr_str content), Heq. rewrite Heq in Hfirst.
    now apply declared_width_value. }
  assert (Hf : falsy (Some (unstr v)) = false) by (now destruct v).
  unfold SizeGated.select, RasterOnly.select, make_candidate.
  rewrite Hw, Hf, has_image_test. cbn [from_option id orb]. rewrite str_unstr.
  split; [reflexivity|]. now destruct (includes (str content) (str "<image")).
Qed.

Lemma select_with_width_witness :
  SizeGated.select "/proj" "img/logo.svg" 12288 (svg_with_width "320") =
    Some (Candidate "/proj/img/logo.svg" "/proj/img" "logo.svg" (svg_with_width "320")
            1000%float) /\
  RasterOnly.select "/proj" "img/logo.svg" (svg_with_width "320") =
    Some (Candidate "/proj/img/logo.svg" "/proj/img" "logo.svg" (svg_with_width "320")
            1000%float).
Proof.
  apply (select_with_width "/proj" "img/logo.svg" 12288 (svg_with_width "320")
           [] (str "320") (str "><image/></svg>")).
  - reflexivity.
  - reflexivity.
  - repeat constructor.
  - discriminate.
Defined.

(** *** Widths that are no numbers *)

Lemma ends_tail {A} (x y c : A) (l t : list A) :
  x :: y :: l = t ++ [c] -> exists t', y :: l = t' ++ [c].
Proof.
  destruct t as [|x' t]; [discriminate|]. intros [= _ H]. eauto.
Qed.

Lemma ends_tail_or_nil {A} (x c : A) (l t : list A) :
  x :: l = t ++ [c] -> l = [] \/ exists t', l = t' ++ [c].
Proof.
  destruct t as [|x' t]; intros [= _ H]; [now left | right; eauto].
Qed.

Lemma trim_start_ends (c : ascii) (v : chars) :
  is_whitespace c = false -> exists t, trim_start (v ++ [c]) = t ++ [c].
Proof.
  intros Hc. induction v as [|a v IH]; cbn [app trim_start].
  - rewrite Hc. now exists [].
  - destruct (is_whitespace a); [exact IH | now exists (a :: v)].
Qed.

Lemma trim_ends (c : ascii) (v : chars) :
  is_whitespace c = false -> exists t, trim (v ++ [c]) = t ++ [c].
Proof.
  intros Hc. destruct (trim_start_ends c v Hc) as [t Ht]. exists t.
  unfold trim. rewrite Ht, rev_app_distr. cbn [rev app trim_start].
  rewrite Hc. cbn [rev]. now rewrite rev_involutive.
Qed.

Lemma digits_value_ends (base acc : Z) (c : ascii) (l : chars) :
  hex_val c = None -> digits_value base acc (l ++ [c]) = None.
Proof.
  intros Hc. revert acc. induction l as [|a l IH]; intros acc; cbn [app digits_value].
  - now rewrite Hc.
  - destruct (hex_val a) as [d|]; [|reflexivity].
    destruct (d <? base)%Z; [apply IH | reflexivity].
Qed.

Lemma hex_val_digit (c : ascii) : hex_val c = None -> is_digit c = false.
Proof.
  unfold hex_val, is_digit.
  destruct ((48 <=? nat_of_ascii c) && (nat_of_ascii c <=? 57)); [discriminate | reflexivity].
Qed.

Lemma span_digits_ends (c : ascii) (l : chars) :
  is_digit c = false -> exists t, (span_digits (l ++ [c])).2 = t ++ [c].
Proof.
  intros Hc. induction l as [|a l IH]; cbn [app span_digits].
  - rewrite Hc. now exists [].
  - destruct (is_digit a); [|now exists (a :: l)].
    destruct (span_digits (l ++ [c])) as [ds r]. exact IH.
Qed.

Lemma span_digits_rest (c : ascii) (l : chars) :
  is_digit c = false -> l = [] \/ (exists t, l = t ++ [c]) ->
  match span_digits l with
  | (_ :: _, []) => False
  | _ => True
  end.
Proof.
  intros Hc [-> | [t ->]]; [exact I|].
  destruct (span_digits_ends c t Hc) as [t' Ht'].
  destruct (span_digits (t ++ [c])) as [ds r]. cbn [snd] in Ht'. subst r.
  destruct ds; [exact I | now destruct t'].
Qed.

Lemma parse_exponent_ends (c : ascii) (t : chars) :
  hex_val c = None -> parse_exponent (t ++ [c]) = None.
Proof.
  intros Hc. pose proof (hex_val_digit c Hc) as Hd.
  destruct (t ++ [c]) as [|c0 s1] eqn:Hs; [now destruct t|].
  cbn [parse_exponent].
  destruct (ascii_eqb c0 "e" || ascii_eqb c0 "E"); [|reflexivity].
  symmetry in Hs. apply ends_tail_or_nil in Hs.
  assert (Hgo : forall r, r = [] \/ (exists t', r = t' ++ [c]) ->
                  match span_digits r with
                  | ((_ :: _) as ds, []) => Some (decimal_value ds)
                  | _ => None
                  end = (None : option Z) /\
                  match span_digits r with
                  | ((_ :: _) as ds, []) => Some (- decimal_value ds)%Z
                  | _ => None
                  end = (None : option Z)).
  { intros r Hr. pose proof (span_digits_rest c r Hd Hr) as H.
    destruct (span_digits r) as [[|d ds] [|x r']]; now try contradiction. }
  destruct s1 as [|a s2].
  - reflexivity.
  - assert (Hs2 : s2 = [] \/ exists t', s2 = t' ++ [c]).
    { destruct Hs as [Hs | [t' Hs]]; [discriminate|]. now apply ends_tail_or_nil in Hs. }
    destruct a as [[] [] [] [] [] [] [] []];
      first [ apply (Hgo s2 Hs2) | apply (Hgo _ Hs) ].
Qed.

Lemma unsigned_decimal_ends (c : ascii) (s : chars) :
  hex_val c = None -> c <> "." -> c <> "y" ->
  s = [] \/ (exists t, s = t ++ [c]) ->
  unsigned_decimal s = None.
Proof.
  intros Hc Hdot Hy [-> | [t ->]]; [reflexivity|].
  pose proof (hex_val_digit c Hc) as Hd.
  unfold unsigned_decimal.
  destruct (decide (t ++ [c] = str "Infinity")) as [Heq|_].
  { change (str "Infinity") with (str "Infinit" ++ ["y"]) in Heq.
    apply app_inj_tail in Heq as [_ ->]. contradiction. }
  destruct (span_digits_ends c t Hd) as [t1 Ht1].
  destruct (span_digits (t ++ [c])) as [int s1]. cbn [snd] in Ht1. subst s1.
  assert (Hs2 : exists t2,
            (match t1 ++ [c] with
             | "." :: s1' => span_digits s1'
             | _ => ([], t1 ++ [c])
             end).2 = t2 ++ [c]).
  { destruct t1 as [|a t1].
    - cbn [app]. destruct c as [[] [] [] [] [] [] [] []];
        first [ now contradiction Hdot | now exists [] ].
    - cbn [app].
      destruct a as [[] [] [] [] [] [] [] []];
        first [ apply (span_digits_ends c t1 Hd) | now eexists (_ :: t1) ]. }
  destruct Hs2 as [t2 Ht2].
  destruct (match t1 ++ [c] with
            | "." :: s1' => span_digits s1'
            | _ => ([], t1 ++ [c])
            end) as [frac s2].
  cbn [snd] in Ht2. subst s2. rewrite (parse_exponent_ends c t2 Hc).
  now destruct int, frac.
Qed.

Lemma non_decimal_ends (c : ascii) (t : chars) :
  hex_val c = None -> non_decimal (t ++ [c]) = None.
Proof.
  intros Hc. unfold non_decimal.
  destruct (t ++ [c]) as [|z [|b [|d ds]]] eqn:Hs;
    try reflexivity; try (now destruct z as [[] [] [] [] [] [] [] []]).
  assert (Hds : exists t', d :: ds = t' ++ [c]).
  { symmetry in Hs. apply ends_tail in Hs as [t1 Hs]. now apply ends_tail in Hs. }
  destruct Hds as [t' ->].
  destruct z as [[] [] [] [] [] [] [] []]; try reflexivity.
  destruct (t' ++ [c]) as [|d' ds'] eqn:Ht'; [now destruct t'|]. rewrite <- Ht'.
  destruct (if ascii_eqb b "x" || ascii_eqb b "X" then Some 16%Z
            else if ascii_eqb b "o" || ascii_eqb b "O" then Some 8%Z
            else if ascii_eqb b "b" || ascii_eqb b "B" then Some 2%Z
            else None) as [base|]; [|reflexivity].
  now rewrite digits_value_ends.
Qed.

Lemma Number_ends (c : ascii) (v : chars) :
  is_whitespace c = false -> hex_val c = None -> c <> "." -> c <> "y" ->
  Number (v ++ [c]) = PrimFloat.nan.
Proof.
  intros Hw Hc Hdot Hy. unfold Number.
  destruct (trim_ends c v Hw) as [t ->].
  pose proof (non_decimal_ends c t Hc) as Hnd.
  destruct (t ++ [c]) as [|a s] eqn:Hs; [now destruct t|].
  rewrite Hnd.
  assert (Hall : unsigned_decimal (a :: s) = None).
  { apply (unsigned_decimal_ends c); auto. right. exists t. now rewrite Hs. }
  assert (Htail : unsigned_decimal s = None).
  { apply (unsigned_decimal_ends c); auto. symmetry in Hs. now apply ends_tail_or_nil in Hs. }
  destruct a as [[] [] [] [] [] [] [] []];
    first [ now rewrite Htail | now rewrite Hall ].
Qed.

(** X9: a width that ends in an ASCII character that no number ends in
    (anything but a digit, a letter from a to f, a dot, a y or white space: a
    unit as in [100px] or [2em], or a percent sign) is not a number for
    [Number]: [!width] does not exclude the candidate, and its target width
    is [NaN]. *)
Theorem width_with_unit_is_NaN (v : chars) (c : ascii) :
  nat_of_ascii c < 128 ->
  is_whitespace c = false -> hex_val c = None -> c <> "." -> c <> "y" ->
  Number (v ++ [c]) = PrimFloat.nan /\
  target_width (v ++ [c]) = PrimFloat.nan /\
  falsy (Some (unstr (v ++ [c]))) = false.
Proof.
  intros _ Hw Hc Hdot Hy.
  assert (HN : Number (v ++ [c]) = PrimFloat.nan) by now apply Number_ends.
  split; [exact HN|]. split.
  - unfold target_width. rewrite HN. reflexivity.
  - destruct v; reflexivity.
Qed.

Lemma width_with_unit_is_NaN_witness :
  Number (str "100px") = PrimFloat.nan /\
  target_width (str "100px") = PrimFloat.nan /\
  falsy (Some "100px"%string) = false.
Proof.
  apply (width_with_unit_is_NaN (str "100p") "x");
    first [ discriminate | reflexivity | vm_compute; lia ].
Defined.

Lemma trim_start_blank (v : chars) : forallb is_whitespace v = true -> trim_start v = [].
Proof.
  induction v as [|a v IH]; [reflexivity|]. cbn [forallb trim_start].
  intros [Ha Hv]%andb_true_iff. rewrite Ha. now apply IH.
Qed.

(** X10: a width of white space only is not excluded by [!width] either:
    [Number] reads it as 0, and the target width of the candidate is 0. *)
Theorem blank_width_is_zero (v : chars) :
  v <> [] -> forallb is_whitespace v = true ->
  Number v = PrimFloat.zero /\
  target_width v = PrimFloat.zero /\
  falsy (Some (unstr v)) = false.
Proof.
  intros Hne Hblank.
  assert (HN : Number v = PrimFloat.zero).
  { unfold Number, trim. rewrite (trim_start_blank v Hblank). reflexivity. }
  split; [exact HN|]. split.
  - unfold target_width. rewrite HN. vm_compute. reflexivity.
  - now destruct v.
Qed.

Lemma blank_width_is_zero_witness :
  Number (str " ") = PrimFloat.zero /\
  target_width (str " ") = PrimFloat.zero /\
  falsy (Some " "%string) = false.
Proof.
  apply (blank_width_is_zero (str " ")); [discriminate | reflexivity].
Defined.

(** *** The artifact lies beside the original *)

Lemma path_join_split (d f : string) :
  "/" ∉ str f ->
  split_last_slash [] (str (path_join d f)) None =
  Some (if decide (d = "/"%string) then [] else str d, str f).
Proof.
  intros Hf. rewrite str_path_join.
  now rewrite (split_last_slash_app _ (str f) [] None Hf).
Qed.

Lemma path_dirname_join (d f : string) :
  d <> EmptyString -> "/" ∉ str f -> path_dirname (path_join d f) = d.
Proof.
  intros Hd Hf. unfold path_dirname. rewrite path_join_split by exact Hf.
  destruct (decide (d = "/"%string)) as [->|Hne]; [reflexivity|].
  destruct (str d) as [|c l] eqn:Hs.
  - apply (f_equal unstr) in Hs. rewrite unstr_str in Hs. contradiction.
  - rewrite <- Hs. apply unstr_str.
Qed.

Lemma path_basename_join (d f : string) :
  "/" ∉ str f -> path_basename (path_join d f) = f.
Proof.
  intros Hf. unfold path_basename. rewrite path_join_split by exact Hf.
  apply unstr_str.
Qed.

Lemma path_dirname_nonempty (p : string) : path_dirname p <> EmptyString.
Proof.
  unfold path_dirname.
  destruct (split_last_slash [] (str p) None) as [[[|c d] b]|]; discriminate.
Qed.

Lemma path_basename_no_slash (p : string) : "/" ∉ str (path_basename p).
Proof.
  unfold path_basename.
  destruct (last_slash (str p)) as [Hno | (d & b & Hp & Hb)].
  - now rewrite (split_last_slash_none (str p) [] None Hno).
  - rewrite Hp, (split_last_slash_app d b [] None Hb). now rewrite str_unstr.
Qed.

(** X11: the artifact of every candidate that [main] selects lies in the
    directory of the original, and its base name is the name of the
    original with its first [.svg] replaced. *)
Theorem artifact_beside_original (cwd file : string) (size : nat) (content : string)
    (cand : candidate) :
  SizeGated.select cwd file size content = Some cand \/
  RasterOnly.select cwd file content = Some cand ->
  path_dirname (avifPath cand) = path_dirname (path cand) /\
  path_basename (avifPath cand) = svg_to_avif (name cand).
Proof.
  intros Hsel. destruct (selected_is_made _ _ _ _ _ Hsel) as [width ->].
  unfold avifPath. cbn [dir name path make_candidate].
  assert (Hname : "/" ∉ str (svg_to_avif (path_basename file))).
  { intros [Hin | Hin]%svg_to_avif_chars.
    - now apply path_basename_no_slash in Hin.
    - revert Hin. cbn. rewrite !elem_of_cons, elem_of_nil. intuition discriminate. }
  split.
  - apply path_dirname_join; [apply path_dirname_nonempty | exact Hname].
  - now apply path_basename_join.
Qed.

Lemma artifact_beside_original_witness :
  path_dirname (avifPath (sample_candidate "img/logo.svg")) =
    path_dirname (path (sample_candidate "img/logo.svg")) /\
  path_basename (avifPath (sample_candidate "img/logo.svg")) =
    svg_to_avif (name (sample_candidate "img/logo.svg")).
Proof.
  apply (artifact_beside_original "/proj" "img/logo.svg" 12288 (svg_with_width "100")).
  left. vm_compute. reflexivity.
Defined.

(** *** The session *)

Lemma conversion_session_run (h : host) (file : candidate) (w w1 : world) (p : string) :
  conversion_session h file w = (Ok p, w1) ->
  exists svg avif compressed,
    fs w !! path file = Some svg /\ readable svg = true /\
    convert_tool h (data svg) (width file) = Some avif /\
    compress_tool h avif = Some compressed /\
    p = path_join (dir file) (svg_to_avif (name file)) /\
    fs w1 = <[p := File compressed true true]> (fs w) /\
    browser_open w1 = true /\ context_open w1 = true.
Proof.
  unfold conversion_session, launch, newContext, newPage, guard.
  set (avifPath := path_join (dir file) (svg_to_avif (name file))).
  unfold download, writeFile, readFile, bind, log, ret, raise, set_fs.
  destruct (launch_ok h); [|discriminate].
  destruct (newContext_ok h); [|discriminate].
  destruct (newPage_ok h); [|discriminate].
  cbn [fs browser_open context_open console].
  destruct (fs w !! path file) as [svg|] eqn:Hsvg; [|discriminate].
  destruct (readable svg) eqn:Hr; [|discriminate].
  destruct (convert_tool h (data svg) (width file)) as [avif|] eqn:Hc; [|discriminate].
  cbn [fs browser_open context_open console].
  destruct (fs w !! avifPath) as [old|] eqn:Hold.
  - destruct (writable old); [|discriminate].
    cbn [fs browser_open context_open console]. rewrite lookup_insert_eq.
    cbn [readable data writable].
    destruct (readable old); [|discriminate].
    destruct (compress_tool h avif) as [compressed|] eqn:Hz; [|discriminate].
    cbn [fs browser_open context_open console]. rewrite lookup_insert_eq.
    cbn [readable data writable fs browser_open context_open console].
    intros [= <- <-]. exists svg, avif, compressed.
    cbn [fs browser_open context_open]. rewrite insert_insert_eq. auto 10.
  - cbn [fs browser_open context_open console]. rewrite lookup_insert_eq.
    cbn [readable data writable].
    destruct (compress_tool h avif) as [compressed|] eqn:Hz; [|discriminate].
    cbn [fs browser_open context_open console]. rewrite lookup_insert_eq.
    cbn [readable data writable fs browser_open context_open console].
    intros [= <- <-]. exists svg, avif, compressed.
    cbn [fs browser_open context_open]. rewrite insert_insert_eq. auto 10.
Qed.

Lemma session_sizes_Some (h : host) (file : candidate) (w : world) (A S : nat) :
  session_sizes h file w = Some (A, S) ->
  exists w1 avif svg,
    conversion_session h file w = (Ok (avifPath file), w1) /\
    fs w1 !! avifPath file = Some avif /\ fs w1 !! path file = Some svg /\
    String.length (data avif) = A /\ String.length (data svg) = S.
Proof.
  unfold session_sizes.
  destruct (conversion_session h file w) as [[p|e] w1] eqn:Hs; [|discriminate].
  destruct (conversion_session_returns h file w w1 p Hs) as [-> _].
  fold (avifPath file).
  destruct (fs w1 !! avifPath file) as [avif|] eqn:Ha; [|discriminate].
  destruct (fs w1 !! path file) as [svg|] eqn:Ho; [|discriminate].
  intros [= <- <-]. exists w1, avif, svg. auto.
Qed.

(** X12: when the session completes, the file system differs from the one it
    started in at the artifact path only; the artifact holds what the
    compressor answered to what the converter answered to the content of the
    original and the width of the candidate, and the browser and its context
    are open. *)
Theorem session_artifact (h : host) (file : candidate) (w : world) (p : string) :
  (conversion_session h file w).1 = Ok p ->
  exists svg avif compressed,
    fs w !! path file = Some svg /\
    convert_tool h (data svg) (width file) = Some avif /\
    compress_tool h avif = Some compressed /\
    p = avifPath file /\
    fs (conversion_session h file w).2 = <[p := File compressed true true]> (fs w) /\
    browser_open (conversion_session h file w).2 = true /\
    context_open (conversion_session h file w).2 = true.
Proof.
  destruct (conversion_session h file w) as [r w1] eqn:Hs. cbn [fst snd].
  intros ->.
  destruct (conversion_session_run h file w w1 p Hs)
    as (svg & avif & compressed & H1 & _ & H2 & H3 & H4 & H5 & H6 & H7).
  exists svg, avif, compressed. auto 10.
Qed.

Lemma session_artifact_witness :
  exists svg avif compressed,
    fs (sample_world "logo.svg" "") !! path (sample_candidate "logo.svg") = Some svg /\
    convert_tool sample_host (data svg) (width (sample_candidate "logo.svg")) = Some avif /\
    compress_tool sample_host avif = Some compressed /\
    "/proj/logo.avif"%string = avifPath (sample_candidate "logo.svg") /\
    fs (conversion_session sample_host (sample_candidate "logo.svg")
          (sample_world "logo.svg" "")).2 =
      <["/proj/logo.avif"%string := File compressed true true]>
        (fs (sample_world "logo.svg" "")) /\
    browser_open (conversion_session sample_host (sample_candidate "logo.svg")
                    (sample_world "logo.svg" "")).2 = true /\
    context_open (conversion_session sample_host (sample_candidate "logo.svg")
                    (sample_world "logo.svg" "")).2 = true.
Proof.
  apply (session_artifact sample_host (sample_candidate "logo.svg")
           (sample_world "logo.svg" "") "/proj/logo.avif").
  vm_compute. reflexivity.
Defined.

(** *** The two ways [convert] ends *)

Lemma settle_rejects (h : host) (file : candidate) (p : string) (w : world) avif svg :
  fs w !! p = Some avif -> fs w !! path file = Some svg ->
  (String.length (data svg) <= String.length (data avif))%nat ->
  fs (SizeGated.settle h file p w).2 = delete p (fs w).
Proof.
  intros Ha Hs Hle. unfold SizeGated.settle, SizeGated.gate, bind at 1 2, stat_size.
  rewrite Ha, Hs. rewrite (proj2 (Nat.leb_le _ _) Hle).
  unfold bind, log, unlink, context_close, browser_close, guard, ret, raise.
  cbn [fs]. rewrite Ha.
  destruct (context_close_ok h), (browser_close_ok h); reflexivity.
Qed.

Lemma convert_rejects (h : host) (file : candidate) (w : world) (A S : nat) :
  session_sizes h file w = Some (A, S) -> (S <= A)%nat ->
  fs (SizeGated.convert h file w).2 = delete (avifPath file) (fs w).
Proof.
  intros Hsizes Hle.
  destruct (session_sizes_Some h file w A S Hsizes)
    as (w1 & avif & svg & Hs & Ha & Ho & <- & <-).
  destruct (conversion_session_run h file w w1 _ Hs)
    as (_ & _ & compressed & _ & _ & _ & _ & _ & Hfs & _).
  unfold SizeGated.convert, bind. rewrite Hs.
  rewrite (settle_rejects h file _ w1 avif svg Ha Ho Hle), Hfs.
  apply delete_insert_eq.
Qed.

(** X13: when the gate keeps the original, [convert] leaves of the artifact
    nothing and changes nothing else: where no file was at the artifact path
    before, the file system is as it was before the conversion, also when
    closing the browser fails. *)
Theorem rejected_conversion_restores (h : host) (file : candidate) (w : world)
    (A S : nat) :
  session_sizes h file w = Some (A, S) ->
  SizeGated.gate A S = KeepOriginal ->
  fs (SizeGated.convert h file w).2 = delete (avifPath file) (fs w) /\
  (fs w !! avifPath file = None -> fs (SizeGated.convert h file w).2 = fs w).
Proof.
  intros Hsizes Hgate.
  assert (Hle : (S <= A)%nat).
  { unfold SizeGated.gate in Hgate. destruct (Nat.leb_spec S A); [lia | discriminate]. }
  rewrite (convert_rejects h file w A S Hsizes Hle).
  split; [reflexivity | apply delete_id].
Qed.

Lemma rejected_conversion_restores_witness :
  fs (SizeGated.convert bloating_host (sample_candidate "logo.svg")
        (sample_world "logo.svg" "<img src='logo.svg'>")).2 =
  fs (sample_world "logo.svg" "<img src='logo.svg'>").
Proof.
  apply (rejected_conversion_restores bloating_host (sample_candidate "logo.svg")
           (sample_world "logo.svg" "<img src='logo.svg'>") 40 31).
  - vm_compute. reflexivity.
  - reflexivity.
  - vm_compute. reflexivity.
Defined.

Lemma svg_to_avif_same (name : string) :
  includes (str name) (str ".svg") = false -> svg_to_avif name = name.
Proof.
  unfold includes, svg_to_avif, replace_string.
  destruct (indexOf (str ".svg") (str name)); [discriminate|].
  intros _. apply unstr_str.
Qed.

(** X14: for a candidate whose name does not contain [.svg] (an extension in
    upper case, say) the artifact path is the path of the original: the
    session saves the artifact over the original, the two sizes that the
    gate compares are those of one file, and the first version then removes
    it.  Neither the original nor an artifact is left. *)
Theorem name_without_svg_loses_original (h : host) (file : candidate) (w w1 : world)
    (p : string) :
  includes (str (name file)) (str ".svg") = false ->
  path file = path_join (dir file) (name file) ->
  conversion_session h file w = (Ok p, w1) ->
  p = path file /\
  fs (SizeGated.convert h file w).2 = delete (path file) (fs w) /\
  fs (SizeGated.convert h file w).2 !! path file = None.
Proof.
  intros Hno Hpath Hs.
  assert (Hp : avifPath file = path file).
  { unfold avifPath. now rewrite svg_to_avif_same, Hpath. }
  destruct (conversion_session_run h file w w1 p Hs)
    as (_ & _ & compressed & _ & _ & _ & _ & -> & Hfs & _).
  fold (avifPath file) in *. rewrite Hp in *.
  assert (Hfl : fs w1 !! path file = Some (File compressed true true))
    by (rewrite Hfs; apply lookup_insert_eq).
  assert (Heq : fs (SizeGated.convert h file w).2 = delete (path file) (fs w)).
  { unfold SizeGated.convert, bind. rewrite Hs.
    rewrite (settle_rejects h file _ w1 _ _ Hfl Hfl (le_n _)), Hfs.
    apply delete_insert_eq. }
  split; [reflexivity|]. split; [exact Heq|].
  rewrite Heq. apply lookup_delete_eq.
Qed.

Lemma name_without_svg_loses_original_witness :
  fs (SizeGated.convert sample_host (sample_candidate "LOGO.SVG")
        (sample_world "LOGO.SVG" "<img src='LOGO.SVG'>")).2 !! "/proj/LOGO.SVG"%string = None.
Proof.
  apply (name_without_svg_loses_original sample_host (sample_candidate "LOGO.SVG")
           (sample_world "LOGO.SVG" "<img src='LOGO.SVG'>")
           (conversion_session sample_host (sample_candidate "LOGO.SVG")
              (sample_world "LOGO.SVG" "<img src='LOGO.SVG'>")).2
           "/proj/LOGO.SVG").
  - vm_compute. reflexivity.
  - vm_compute. reflexivity.
  - vm_compute. reflexivity.
Defined.

(** The steps behind an accepted artifact, when nothing fails. *)
Lemma settle_accepts (h : host) (file : candidate) (w : world) (files : list string) :
  text_files h = Some files ->
  context_close_ok h = true -> browser_close_ok h = true ->
  present (path file) w ->
  exists lines,
    RasterOnly.settle h file w =
    (Ok tt,
     World (delete (path file)
              (rounds h (name file) (svg_to_avif (name file)) files (fs w)))
       false false (lines ++ console w)).
Proof.
  intros Hfiles Hc Hb Hp. unfold RasterOnly.settle. unfold bind at 1.
  destruct (updateReferences_run h (name file) (svg_to_avif (name file)) w files Hfiles)
    as (lines & -> & _).
  unfold context_close, browser_close, guard. rewrite Hc, Hb.
  unfold log, unlink, ret, bind, set_fs. cbn [fs browser_open context_open console].
  apply (rounds_is_Some h (name file) (svg_to_avif (name file)) files) in Hp as [fl ->].
  exists (LogDeleting (name file) :: LogCompleted (name file) :: lines).
  reflexivity.
Qed.

(** X15: when the session completes, [glob] answers and the browser closes,
    the second version, and the first one when the gate keeps the artifact,
    return with the browser closed and with the file system of the start
    changed in three ways: the artifact holds the compressed bytes, every
    listed text file is as its round of [updateReferences] leaves it, and the
    original is removed.  So the original is gone, and the artifact is there
    with the compressed bytes when its path is neither that of the original
    nor that of a listed text file. *)
Theorem accepted_conversion (h : host) (file : candidate) (w : world)
    (files : list string) (A S : nat) :
  session_sizes h file w = Some (A, S) ->
  text_files h = Some files ->
  context_close_ok h = true -> browser_close_ok h = true ->
  exists compressed,
    String.length compressed = A /\
    (SizeGated.gate A S = KeepArtifact ->
     (SizeGated.convert h file w).1 = Ok tt /\
     fs (SizeGated.convert h file w).2 = settled h (fs w) file files compressed /\
     closed (SizeGated.convert h file w).2) /\
    ((RasterOnly.convert h file w).1 = Ok tt /\
     fs (RasterOnly.convert h file w).2 = settled h (fs w) file files compressed /\
     closed (RasterOnly.convert h file w).2) /\
    settled h (fs w) file files compressed !! path file = None /\
    (avifPath file <> path file ->
     (forall f, f ∈ files -> path_join (currentDir h) f <> avifPath file) ->
     settled h (fs w) file files compressed !! avifPath file =
       Some (File compressed true true)).
Proof.
  intros Hsizes Hfiles Hc Hb.
  destruct (session_sizes_Some h file w A S Hsizes)
    as (w1 & avif & svg & Hs & Ha & Ho & HA & HS).
  destruct (conversion_session_run h file w w1 _ Hs)
    as (_ & _ & compressed & _ & _ & _ & _ & _ & Hfs & _).
  fold (avifPath file) in Hfs.
  exists compressed. split.
  { rewrite Hfs, lookup_insert_eq in Ha. now injection Ha as <-. }
  assert (Hsettle : forall line,
            exists lines,
              RasterOnly.settle h file
                (World (fs w1) (browser_open w1) (context_open w1) (line ++ console w1)) =
              (Ok tt, World (settled h (fs w) file files compressed) false false lines)).
  { intros line.
    destruct (settle_accepts h file
                (World (fs w1) (browser_open w1) (context_open w1) (line ++ console w1))
                files Hfiles Hc Hb) as (lines & ->).
    - exists svg. exact Ho.
    - cbn [fs console]. rewrite Hfs. eauto. }
  split; [|split; [|split]].
  - intros Hgate.
    assert (Hconv : SizeGated.convert h file w =
                    RasterOnly.settle h file
                      (World (fs w1) (browser_open w1) (context_open w1)
                         ([LogReplacing A S] ++ console w1))).
    { unfold SizeGated.convert, bind at 1. rewrite Hs.
      unfold SizeGated.settle, bind at 1 2, stat_size.
      rewrite Ha, Ho, HA, HS, Hgate. reflexivity. }
    destruct (Hsettle [LogReplacing A S]) as (lines & Hrun).
    rewrite Hconv, Hrun. now repeat split.
  - assert (Hconv : RasterOnly.convert h file w =
                    RasterOnly.settle h file
                      (World (fs w1) (browser_open w1) (context_open w1)
                         ([] ++ console w1))).
    { unfold RasterOnly.convert, bind. rewrite Hs. now destruct w1. }
    destruct (Hsettle []) as (lines & Hrun).
    rewrite Hconv, Hrun. now repeat split.
  - unfold settled. apply lookup_delete_eq.
  - intros Hne Hout. unfold settled.
    rewrite lookup_delete_ne by congruence.
    rewrite lookup_rounds_other by exact Hout. apply lookup_insert_eq.
Qed.

Lemma accepted_conversion_witness :
  exists compressed,
    String.length compressed = 4 /\
    (SizeGated.gate 4 31 = KeepArtifact ->
     (SizeGated.convert sample_host (sample_candidate "logo.svg")
        (sample_world "logo.svg" "<img src='logo.svg'>")).1 = Ok tt /\
     fs (SizeGated.convert sample_host (sample_candidate "logo.svg")
           (sample_world "logo.svg" "<img src='logo.svg'>")).2 =
       settled sample_host (fs (sample_world "logo.svg" "<img src='logo.svg'>"))
         (sample_candidate "logo.svg") ["index.html"; "locked.css"; "readme.md"]%string
         compressed /\
     closed (SizeGated.convert sample_host (sample_candidate "logo.svg")
               (sample_world "logo.svg" "<img src='logo.svg'>")).2) /\
    ((RasterOnly.convert sample_host (sample_candidate "logo.svg")
        (sample_world "logo.svg" "<img src='logo.svg'>")).1 = Ok tt /\
     fs (RasterOnly.convert sample_host (sample_candidate "logo.svg")
           (sample_world "logo.svg" "<img src='logo.svg'>")).2 =
       settled sample_host (fs (sample_world "logo.svg" "<img src='logo.svg'>"))
         (sample_candidate "logo.svg") ["index.html"; "locked.css"; "readme.md"]%string
         compressed /\
     closed (RasterOnly.convert sample_host (sample_candidate "logo.svg")
               (sample_world "logo.svg" "<img src='logo.svg'>")).2) /\
    settled sample_host (fs (sample_world "logo.svg" "<img src='logo.svg'>"))
      (sample_candidate "logo.svg") ["index.html"; "locked.css"; "readme.md"]%string
      compressed !! path (sample_candidate "logo.svg") = None /\
    (avifPath (sample_candidate "logo.svg") <> path (sample_candidate "logo.svg") ->
     (forall f, f ∈ ["index.html"; "locked.css"; "readme.md"]%string ->
        path_join (currentDir sample_host) f <> avifPath (sample_candidate "logo.svg")) ->
     settled sample_host (fs (sample_world "logo.svg" "<img src='logo.svg'>"))
       (sample_candidate "logo.svg") ["index.html"; "locked.css"; "readme.md"]%string
       compressed !! avifPath (sample_candidate "logo.svg") =
       Some (File compressed true true)).
Proof.
  apply (accepted_conversion sample_host (sample_candidate "logo.svg")
           (sample_world "logo.svg" "<img src='logo.svg'>")
           ["index.html"; "locked.css"; "readme.md"]%string 4 31).
  - vm_compute. reflexivity.
  - reflexivity.
  - reflexivity.
  - reflexivity.
Defined.

(** *** The files that [convert] leaves alone *)

Lemma holds_fs {A} (p : string) v (m : M A) :
  (forall w, fs (m w).2 = fs w) -> keeps (holds p v) m.
Proof.
  intros H w Hw. unfold holds in *. specialize (H w).
  destruct (m w) as [[a|e] w1]; cbn [snd] in H; now rewrite H.
Qed.

Lemma holds_log (p : string) v (line : console_line) : keeps (holds p v) (log line).
Proof. now apply holds_fs. Qed.

Lemma holds_launch (p : string) v (h : host) : keeps (holds p v) (launch h).
Proof.
  apply holds_fs. intros w. unfold launch, bind, guard. now destruct (launch_ok h).
Qed.

Lemma holds_newContext (p : string) v (h : host) : keeps (holds p v) (newContext h).
Proof.
  apply holds_fs. intros w. unfold newContext, bind, guard.
  now destruct (newContext_ok h).
Qed.

Lemma holds_context_close (p : string) v (h : host) : keeps (holds p v) (context_close h).
Proof.
  apply holds_fs. intros w. unfold context_close, bind, guard.
  now destruct (context_close_ok h).
Qed.

Lemma holds_browser_close (p : string) v (h : host) : keeps (holds p v) (browser_close h).
Proof.
  apply holds_fs. intros w. unfold browser_close, bind, guard.
  now destruct (browser_close_ok h).
Qed.

Lemma holds_writeFile (p : string) v (q c : string) :
  q <> p -> keeps (holds p v) (writeFile q c).
Proof.
  intros Hne w H. unfold writeFile, holds in *.
  destruct (fs w !! q) as [f|]; [destruct (writable f)|]; cbn [fs set_fs];
    try exact H; now rewrite lookup_insert_ne.
Qed.

Lemma holds_unlink (p : string) v (q : string) : q <> p -> keeps (holds p v) (unlink q).
Proof.
  intros Hne w H. unfold unlink, holds in *.
  destruct (fs w !! q) as [f|]; cbn [fs set_fs]; [|exact H].
  now rewrite lookup_delete_ne.
Qed.

Lemma holds_updateReferences (p : string) v (h : host) (o n : string) :
  (forall files, text_files h = Some files ->
     forall f, f ∈ files -> path_join (currentDir h) f <> p) ->
  keeps (holds p v) (updateReferences h o n).
Proof.
  intros Hout w Hw. pose proof (updateReferences_fs h o n w) as Hfs.
  unfold holds in *.
  destruct (updateReferences h o n w) as [[[]|e] w1]; cbn [snd] in Hfs; rewrite Hfs;
    (destruct (text_files h) as [files|]; [|exact Hw]);
    (rewrite lookup_rounds_other; [exact Hw | now apply Hout]).
Qed.

Ltac keeps_holds :=
  repeat first
    [ apply holds_log | apply holds_launch | apply holds_newContext
    | apply holds_context_close | apply holds_browser_close
    | (apply holds_writeFile; assumption) | (apply holds_unlink; assumption)
    | (apply holds_updateReferences; assumption)
    | apply keeps_guard | apply keeps_readFile | apply keeps_stat_size
    | apply keeps_download | apply keeps_ret | apply keeps_raise
    | (apply keeps_bind; [|intros ?]) ].

Section Frame.

Variable h : host.
Variable file : candidate.
Variable p : string.
Hypothesis not_artifact : avifPath file <> p.
Hypothesis not_original : path file <> p.
Hypothesis not_scanned :
  forall files, text_files h = Some files ->
    forall f, f ∈ files -> path_join (currentDir h) f <> p.

Lemma holds_conversion_session v : keeps (holds p v) (conversion_session h file).
Proof.
  unfold avifPath in not_artifact. unfold conversion_session, newPage. keeps_holds.
Qed.

Lemma holds_RasterOnly_settle v : keeps (holds p v) (RasterOnly.settle h file).
Proof. unfold RasterOnly.settle. keeps_holds. Qed.

Lemma holds_SizeGated_settle v :
  keeps (holds p v) (SizeGated.settle h file (avifPath file)).
Proof.
  unfold SizeGated.settle.
  apply keeps_bind; [apply keeps_stat_size | intros avifSize].
  apply keeps_bind; [apply keeps_stat_size | intros svgSize].
  destruct (SizeGated.gate avifSize svgSize); keeps_holds.
Qed.

Lemma holds_convert v :
  keeps (holds p v) (SizeGated.convert h file) /\
  keeps (holds p v) (RasterOnly.convert h file).
Proof.
  split; intros w Hw; pose proof (holds_conversion_session v w Hw) as Hsession;
    unfold SizeGated.convert, RasterOnly.convert, bind;
    destruct (conversion_session h file w) as [[q|e] w1] eqn:Hs; try exact Hsession.
  - destruct (conversion_session_returns h file w w1 q Hs) as [-> _].
    apply (holds_SizeGated_settle v w1 Hsession).
  - apply (holds_RasterOnly_settle v w1 Hsession).
Qed.

End Frame.

(** X16: whether it returns or raises, [convert] changes no file but the
    artifact, the original and the text files that [glob] lists: every other
    path holds afterwards what it held before. *)
Theorem convert_frame (h : host) (file : candidate) (w : world) (p : string) :
  avifPath file <> p -> path file <> p ->
  (forall files, text_files h = Some files ->
     forall f, f ∈ files -> path_join (currentDir h) f <> p) ->
  fs (SizeGated.convert h file w).2 !! p = fs w !! p /\
  fs (RasterOnly.convert h file w).2 !! p = fs w !! p.
Proof.
  intros Ha Ho Hs.
  destruct (holds_convert h file p Ha Ho Hs (fs w !! p)) as [H1 H2].
  specialize (H1 w eq_refl). specialize (H2 w eq_refl). unfold holds in *.
  split.
  - now destruct (SizeGated.convert h file w) as [[[]|e] w1].
  - now destruct (RasterOnly.convert h file w) as [[[]|e] w1].
Qed.

Lemma convert_frame_witness :
  fs (SizeGated.convert sample_host (sample_candidate "logo.svg")
        (sample_world "logo.svg" "<img src='logo.svg'>")).2 !! "/proj/other.svg"%string =
    fs (sample_world "logo.svg" "<img src='logo.svg'>") !! "/proj/other.svg"%string /\
  fs (RasterOnly.convert sample_host (sample_candidate "logo.svg")
        (sample_world "logo.svg" "<img src='logo.svg'>")).2 !! "/proj/other.svg"%string =
    fs (sample_world "logo.svg" "<img src='logo.svg'>") !! "/proj/other.svg"%string.
Proof.
  apply (convert_frame sample_host (sample_candidate "logo.svg")
           (sample_world "logo.svg" "<img src='logo.svg'>") "/proj/other.svg").
  - vm_compute. discriminate.
  - vm_compute. discriminate.
  - intros files [= <-] f Hf.
    repeat (apply elem_of_cons in Hf as [->|Hf]; [vm_compute; discriminate|]).
    now apply elem_of_nil in Hf.
Defined.

(** X17: when the converter answers and the compressor does not, [convert]
    raises in both versions after the first download was saved: the artifact
    is left behind with the bytes of the converter, nothing else is changed,
    and the browser and its context stay open. *)
Theorem compression_failure_leaves_artifact (h : host) (file : candidate) (w : world)
    svg (avif : string) :
  launch_ok h = true -> newContext_ok h = true -> newPage_ok h = true ->
  fs w !! path file = Some svg -> readable svg = true ->
  fs w !! avifPath file = None ->
  convert_tool h (data svg) (width file) = Some avif ->
  compress_tool h avif = None ->
  RasterOnly.convert h file w = SizeGated.convert h file w /\
  (SizeGated.convert h file w).1 = Raise BrowserError /\
  fs (SizeGated.convert h file w).2 = <[avifPath file := File avif true true]> (fs w) /\
  browser_open (SizeGated.convert h file w).2 = true /\
  context_open (SizeGated.convert h file w).2 = true.
Proof.
  intros Hl Hn Hg Hsvg Hr Hno Hc Hz.
  assert (Hs : exists lines,
            conversion_session h file w =
            (Raise BrowserError,
             World (<[avifPath file := File avif true true]> (fs w)) true true lines)).
  { unfold conversion_session, launch, newContext, newPage, guard.
    fold (avifPath file). rewrite Hl, Hn, Hg.
    unfold download, writeFile, readFile, bind, log, ret, raise, set_fs.
    cbn [fs browser_open context_open console]. rewrite Hsvg, Hr, Hc.
    cbn [fs browser_open context_open console]. rewrite Hno.
    cbn [fs browser_open context_open console]. rewrite lookup_insert_eq.
    cbn [readable data]. rewrite Hz. eauto. }
  destruct Hs as (lines & Hs).
  unfold SizeGated.convert, RasterOnly.convert, bind. rewrite Hs. now repeat split.
Qed.

Lemma compression_failure_leaves_artifact_witness :
  RasterOnly.convert failing_compressor_host (sample_candidate "logo.svg")
    (sample_world "logo.svg" "") =
  SizeGated.convert failing_compressor_host (sample_candidate "logo.svg")
    (sample_world "logo.svg" "") /\
  (SizeGated.convert failing_compressor_host (sample_candidate "logo.svg")
     (sample_world "logo.svg" "")).1 = Raise BrowserError /\
  fs (SizeGated.convert failing_compressor_host (sample_candidate "logo.svg")
        (sample_world "logo.svg" "")).2 =
    <[avifPath (sample_candidate "logo.svg") := File large_avif true true]>
      (fs (sample_world "logo.svg" "")) /\
  browser_open (SizeGated.convert failing_compressor_host (sample_candidate "logo.svg")
                  (sample_world "logo.svg" "")).2 = true /\
  context_open (SizeGated.convert failing_compressor_host (sample_candidate "logo.svg")
                  (sample_world "logo.svg" "")).2 = true.
Proof.
  apply (compression_failure_leaves_artifact failing_compressor_host
           (sample_candidate "logo.svg") (sample_world "logo.svg" "")
           (File (svg_with_width "100") true true) large_avif);
    try reflexivity; vm_compute; reflexivity.
Defined.

(** *** [main] *)

Lemma map_all_pure {A B} (l : list A) (f : A -> M B) (w : world) :
  (forall a w, (f a w).2 = w) -> (map_all l f w).2 = w.
Proof.
  intros Hf. induction l as [|a l IH]; [reflexivity|].
  cbn [map_all]. unfold bind at 1. specialize (Hf a w).
  destruct (f a w) as [[b|e] w1]; cbn [snd] in Hf; subst w1; [|reflexivity].
  unfold bind. destruct (map_all l f w) as [[bs|e] w1]; exact IH.
Qed.

Lemma map_all_None {A B} (l : list A) (f : A -> M (option B)) (w : world) :
  (forall a, a ∈ l -> f a w = (Ok None, w)) ->
  exists bs, map_all l f w = (Ok bs, w) /\ omap id bs = [].
Proof.
  induction l as [|a l IH]; intros H; [now exists []|].
  destruct IH as (bs & Hbs & Hnone).
  { intros b Hb. apply H. now apply list_elem_of_further. }
  exists (None :: bs). cbn [map_all]. unfold bind.
  rewrite (H a (list_elem_of_here _ _)), Hbs. now split.
Qed.

Lemma map_all_raises {A B} (l : list A) (f : A -> M B) (w : world) (a : A) :
  (forall a w, (f a w).2 = w) ->
  a ∈ l -> (exists e, (f a w).1 = Raise e) ->
  exists e, map_all l f w = (Raise e, w).
Proof.
  intros Hf Ha Hraise. induction l as [|b l IH]; [now apply elem_of_nil in Ha|].
  cbn [map_all]. unfold bind at 1. pose proof (Hf b w) as Hb.
  destruct (f b w) as [[x|e] w1] eqn:Hfb; cbn [snd] in Hb; subst w1; [|eauto].
  apply elem_of_cons in Ha as [->|Ha].
  - destruct Hraise as [e He]. rewrite Hfb in He. discriminate.
  - destruct (IH Ha) as [e He]. exists e. unfold bind. now rewrite He.
Qed.

Lemma SizeGated_analyze_pure (h : host) (f : string) (w : world) :
  (SizeGated.analyze h f w).2 = w.
Proof.
  unfold SizeGated.analyze, bind, stat_size, readFile, ret.
  destruct (fs w !! path_join (currentDir h) f) as [fl|] eqn:Hfl; [|reflexivity].
  rewrite Hfl. now destruct (readable fl).
Qed.

Lemma RasterOnly_analyze_pure (h : host) (f : string) (w : world) :
  (RasterOnly.analyze h f w).2 = w.
Proof.
  unfold RasterOnly.analyze, bind, readFile, ret.
  destruct (fs w !! path_join (currentDir h) f) as [fl|]; [|reflexivity].
  now destruct (readable fl).
Qed.

(** The analysis of a file reads the file system only. *)
Lemma SizeGated_analyze_fs (h : host) (f : string) (w w' : world) :
  fs w = fs w' -> (SizeGated.analyze h f w).1 = (SizeGated.analyze h f w').1.
Proof.
  intros H. unfold SizeGated.analyze, bind, stat_size, readFile, ret. rewrite H.
  destruct (fs w' !! path_join (currentDir h) f) as [fl|] eqn:Hfl; [|reflexivity].
  rewrite H, Hfl. now destruct (readable fl).
Qed.

Lemma RasterOnly_analyze_fs (h : host) (f : string) (w w' : world) :
  fs w = fs w' -> (RasterOnly.analyze h f w).1 = (RasterOnly.analyze h f w').1.
Proof.
  intros H. unfold RasterOnly.analyze, bind, readFile, ret. rewrite H.
  destruct (fs w' !! path_join (currentDir h) f) as [fl|]; [|reflexivity].
  now destruct (readable fl).
Qed.

(** The world in which [main] analyses the files. *)
Lemma SizeGated_run_eq (h : host) (w : world) (files : list string) :
  svg_files h = Some files ->
  SizeGated.run h w =
  match map_all files (SizeGated.analyze h)
          (World (fs w) (browser_open w) (context_open w)
             (LogAnalyzing :: LogFound (length files) :: LogSearchingSvg ::
              LogCurrentDirectory (currentDir h) :: console w)) with
  | (Ok analyzed, w1) =>
      match (log (LogValid (length (omap id analyzed))) ;;;
             for_of (omap id analyzed) (SizeGated.convert h) ;;;
             log LogAllProcessed) w1 with
      | (Ok _, w2) => (0, w2)
      | (Raise e, w2) => (1, (log (ErrorTop e) w2).2)
      end
  | (Raise e, w1) => (1, (log (ErrorTop e) w1).2)
  end.
Proof.
  intros H. unfold SizeGated.run, SizeGated.main, glob_svg. rewrite H.
  unfold bind at 1 2 3 4 5, log at 1 2 3 4, ret.
  cbn [fs browser_open context_open console].
  unfold bind at 1.
  now destruct (map_all files (SizeGated.analyze h) _) as [[analyzed|e] w1].
Qed.

Lemma RasterOnly_run_eq (h : host) (w : world) (files : list string) :
  svg_files h = Some files ->
  RasterOnly.run h w =
  match map_all files (RasterOnly.analyze h)
          (World (fs w) (browser_open w) (context_open w)
             (LogAnalyzing :: LogFound (length files) :: LogSearchingSvg ::
              LogCurrentDirectory (currentDir h) :: console w)) with
  | (Ok analyzed, w1) =>
      match (log (LogValid (length (omap id analyzed))) ;;;
             for_of (omap id analyzed) (RasterOnly.convert h) ;;;
             log LogAllProcessed) w1 with
      | (Ok _, w2) => (0, w2)
      | (Raise e, w2) => (1, (log (ErrorTop e) w2).2)
      end
  | (Raise e, w1) => (1, (log (ErrorTop e) w1).2)
  end.
Proof.
  intros H. unfold RasterOnly.run, RasterOnly.main, glob_svg. rewrite H.
  unfold bind at 1 2 3 4 5, log at 1 2 3 4, ret.
  cbn [fs browser_open context_open console].
  unfold bind at 1.
  now destruct (map_all files (RasterOnly.analyze h) _) as [[analyzed|e] w1].
Qed.

(** X18: when [glob] finds no SVG file, or every file it finds is analysed
    to [null], the run converts nothing: no file changes, no browser is
    launched, and the exit code is 0. *)
Theorem run_nothing_selected (h : host) (w : world) (files : list string) :
  svg_files h = Some files ->
  ((forall f, f ∈ files -> SizeGated.analyze h f w = (Ok None, w)) ->
   (SizeGated.run h w).1 = 0 /\
   fs (SizeGated.run h w).2 = fs w /\
   browser_open (SizeGated.run h w).2 = browser_open w /\
   context_open (SizeGated.run h w).2 = context_open w) /\
  ((forall f, f ∈ files -> RasterOnly.analyze h f w = (Ok None, w)) ->
   (RasterOnly.run h w).1 = 0 /\
   fs (RasterOnly.run h w).2 = fs w /\
   browser_open (RasterOnly.run h w).2 = browser_open w /\
   context_open (RasterOnly.run h w).2 = context_open w).
Proof.
  intros Hfiles. split; intros Hnone.
  - rewrite (SizeGated_run_eq h w files Hfiles).
    set (w0 := World _ _ _ _).
    destruct (map_all_None files (SizeGated.analyze h) w0) as (bs & Hbs & Hsel).
    { intros f Hf. apply injective_projections.
      - rewrite (SizeGated_analyze_fs h f w0 w eq_refl). now rewrite (Hnone f Hf).
      - apply SizeGated_analyze_pure. }
    rewrite Hbs, Hsel. now repeat split.
  - rewrite (RasterOnly_run_eq h w files Hfiles).
    set (w0 := World _ _ _ _).
    destruct (map_all_None files (RasterOnly.analyze h) w0) as (bs & Hbs & Hsel).
    { intros f Hf. apply injective_projections.
      - rewrite (RasterOnly_analyze_fs h f w0 w eq_refl). now rewrite (Hnone f Hf).
      - apply RasterOnly_analyze_pure. }
    rewrite Hbs, Hsel. now repeat split.
Qed.

Lemma run_nothing_selected_witness :
  (SizeGated.run sample_host (sample_world "logo.svg" "<img src='logo.svg'>")).1 = 0 /\
  fs (SizeGated.run sample_host (sample_world "logo.svg" "<img src='logo.svg'>")).2 =
    fs (sample_world "logo.svg" "<img src='logo.svg'>") /\
  browser_open (SizeGated.run sample_host
                  (sample_world "logo.svg" "<img src='logo.svg'>")).2 = false /\
  context_open (SizeGated.run sample_host
                  (sample_world "logo.svg" "<img src='logo.svg'>")).2 = false.
Proof.
  apply (run_nothing_selected sample_host (sample_world "logo.svg" "<img src='logo.svg'>")
           ["logo.svg"%string]).
  - reflexivity.
  - intros f Hf. apply elem_of_cons in Hf as [->|Hf]; [|now apply elem_of_nil in Hf].
    vm_compute. reflexivity.
Defined.

(** X19: when [glob] rejects, or one of the files it finds is missing or
    cannot be read, the run ends with exit code 1 before anything is
    converted: no file changes and no browser is launched, whatever the other
    files are. *)
Theorem run_analysis_failure (h : host) (w : world) :
  svg_files h = None \/
  (exists files f,
     svg_files h = Some files /\ f ∈ files /\
     forall fl, fs w !! path_join (currentDir h) f = Some fl -> readable fl = false) ->
  ((SizeGated.run h w).1 = 1 /\
   fs (SizeGated.run h w).2 = fs w /\
   browser_open (SizeGated.run h w).2 = browser_open w /\
   context_open (SizeGated.run h w).2 = context_open w) /\
  ((RasterOnly.run h w).1 = 1 /\
   fs (RasterOnly.run h w).2 = fs w /\
   browser_open (RasterOnly.run h w).2 = browser_open w /\
   context_open (RasterOnly.run h w).2 = context_open w).
Proof.
  intros [Hnone | (files & f & Hfiles & Hf & Hbad)].
  - unfold SizeGated.run, SizeGated.main, RasterOnly.run, RasterOnly.main, glob_svg.
    rewrite Hnone. now repeat split.
  - rewrite (SizeGated_run_eq h w files Hfiles), (RasterOnly_run_eq h w files Hfiles).
    set (w0 := World _ _ _ _).
    destruct (map_all_raises files (SizeGated.analyze h) w0 f) as [e1 ->];
      [apply SizeGated_analyze_pure | exact Hf | |].
    { rewrite (SizeGated_analyze_fs h f w0 w eq_refl).
      unfold SizeGated.analyze, bind, stat_size, readFile.
      destruct (fs w !! path_join (currentDir h) f) as [fl|] eqn:Hfl; [|eauto].
      rewrite Hfl, (Hbad fl eq_refl). eauto. }
    destruct (map_all_raises files (RasterOnly.analyze h) w0 f) as [e2 ->];
      [apply RasterOnly_analyze_pure | exact Hf | |].
    { rewrite (RasterOnly_analyze_fs h f w0 w eq_refl).
      unfold RasterOnly.analyze, bind, readFile.
      destruct (fs w !! path_join (currentDir h) f) as [fl|] eqn:Hfl; [|eauto].
      rewrite (Hbad fl eq_refl). eauto. }
    now repeat split.
Qed.

Lemma run_analysis_failure_witness :
  (SizeGated.run sample_host (sample_world "icon.svg" "")).1 = 1 /\
  fs (SizeGated.run sample_host (sample_world "icon.svg" "")).2 =
    fs (sample_world "icon.svg" "").
Proof.
  destruct (run_analysis_failure sample_host (sample_world "icon.svg" ""))
    as [(H1 & H2 & _) _]; [|now split].
  right. exists ["logo.svg"%string], "logo.svg"%string.
  split; [reflexivity|]. split; [apply list_elem_of_here|].
  intros fl. vm_compute. discriminate.
Defined.

(** *** A run that succeeds leaves no browser *)

Lemma closed_pure {A} (m : M A) :
  (forall w, (m w).2 = w) -> triple closed m (fun _ => closed) anything.
Proof.
  intros H w Hw. specialize (H w).
  destruct (m w) as [[a|e] w1]; cbn [snd] in H; [now subst | exact I].
Qed.

Lemma SizeGated_convert_closed (h : host) (file : candidate) :
  triple (fun _ => True) (SizeGated.convert h file) (fun _ => closed) anything.
Proof.
  unfold SizeGated.convert, SizeGated.settle.
  do 3 (eapply triple_bind; [apply triple_anything | intros ?]).
  destruct (SizeGated.gate _ _).
  - eapply triple_bind; [apply triple_anything | intros ?].
    eapply triple_conseq; [apply settle_closed | auto ..].
  - do 3 (eapply triple_bind; [apply triple_anything | intros ?]).
    apply browser_close_closed.
Qed.

Lemma RasterOnly_convert_closed (h : host) (file : candidate) :
  triple (fun _ => True) (RasterOnly.convert h file) (fun _ => closed) anything.
Proof.
  unfold RasterOnly.convert.
  eapply triple_bind; [apply triple_anything | intros ?].
  eapply triple_conseq; [apply settle_closed | auto ..].
Qed.

Lemma for_of_closed {A} (l : list A) (body : A -> M unit) :
  (forall a, triple (fun _ => True) (body a) (fun _ => closed) anything) ->
  triple closed (for_of l body) (fun _ => closed) anything.
Proof.
  intros Hb. induction l as [|a l IH]; [now intros w Hw|].
  cbn [for_of]. apply triple_bind with (R := fun _ => closed); [|intros ?; exact IH].
  apply triple_conseq with (P := fun _ => True) (Q := fun _ => closed) (E := anything);
    [apply Hb | auto ..].
Qed.

Lemma main_closed (h : host) :
  triple closed (SizeGated.main h) (fun _ => closed) anything /\
  triple closed (RasterOnly.main h) (fun _ => closed) anything.
Proof.
  split; unfold SizeGated.main, RasterOnly.main.
  - eapply triple_bind; [apply closed_log | intros ?].
    eapply triple_bind;
      [apply closed_pure; intros w; unfold glob_svg; now destruct (svg_files h) | intros files].
    eapply triple_bind; [apply closed_log | intros ?].
    eapply triple_bind; [apply closed_log | intros ?].
    eapply triple_bind;
      [apply closed_pure; intros w; apply map_all_pure, SizeGated_analyze_pure
      | intros analyzed].
    eapply triple_bind; [apply closed_log | intros ?].
    eapply triple_bind;
      [apply for_of_closed; intros file; apply SizeGated_convert_closed | intros ?].
    apply closed_log.
  - eapply triple_bind; [apply closed_log | intros ?].
    eapply triple_bind;
      [apply closed_pure; intros w; unfold glob_svg; now destruct (svg_files h) | intros files].
    eapply triple_bind; [apply closed_log | intros ?].
    eapply triple_bind; [apply closed_log | intros ?].
    eapply triple_bind;
      [apply closed_pure; intros w; apply map_all_pure, RasterOnly_analyze_pure
      | intros analyzed].
    eapply triple_bind; [apply closed_log | intros ?].
    eapply triple_bind;
      [apply for_of_closed; intros file; apply RasterOnly_convert_closed | intros ?].
    apply closed_log.
Qed.

(** X20: a run that starts without a browser and ends with exit code 0 ends
    without a browser: every conversion of the batch has closed the browser
    and the context that it opened. *)
Theorem run_success_closed (h : host) (w : world) :
  closed w ->
  ((SizeGated.run h w).1 = 0 -> closed (SizeGated.run h w).2) /\
  ((RasterOnly.run h w).1 = 0 -> closed (RasterOnly.run h w).2).
Proof.
  intros Hw. destruct (main_closed h) as [H1 H2].
  split; unfold SizeGated.run, RasterOnly.run, bind, log.
  - specialize (H1 (World (fs w) (browser_open w) (context_open w)
                      (LogCurrentDirectory (currentDir h) :: console w)) Hw).
    destruct (SizeGated.main h _) as [[[]|e] w1]; [now intros _ | discriminate].
  - specialize (H2 (World (fs w) (browser_open w) (context_open w)
                      (LogCurrentDirectory (currentDir h) :: console w)) Hw).
    destruct (RasterOnly.main h _) as [[[]|e] w1]; [now intros _ | discriminate].
Qed.

Lemma run_success_closed_witness :
  closed (RasterOnly.run sample_host (sample_world "logo.svg" "<img src='logo.svg'>")).2.
Proof.
  apply (run_success_closed sample_host (sample_world "logo.svg" "<img src='logo.svg'>")).
  - now split.
  - vm_compute. reflexivity.
Defined.

(** *** Two runs of the first version, end to end *)

(** A 12 KB SVG of width 320 whose artifact has 6 KB: the artifact stays, the
    references are rewritten, the original is removed, the exit code is 0. *)
Example run_accepts :
  SizeGated.analyze halving_host "logo.svg" large_world =
    (Ok (Some (Candidate "/proj/logo.svg" "/proj" "logo.svg" large_svg 1000%float)),
     large_world) /\
  (SizeGated.run halving_host large_world).1 = 0%nat /\
  fs (SizeGated.run halving_host large_world).2 =
  {[ "/proj/logo.avif"%string := File (padding 6000) true true;
     "/proj/index.html"%string := File "<img src='logo.avif'>" true true;
     "/proj/locked.css"%string := File "url(logo.svg)" false true;
     "/proj/readme.md"%string := File "see logo.avif" true true ]}.
Proof. repeat split; vm_compute; reflexivity. Qed.

(** The same SVG with an artifact of 15 KB: the artifact is removed, the
    original and the references are as before. *)
Example run_rejects :
  (SizeGated.run growing_host large_world).1 = 0%nat /\
  fs (SizeGated.run growing_host large_world).2 = fs large_world /\
  closed (SizeGated.run growing_host large_world).2.
Proof. repeat split; vm_compute; reflexivity. Qed.
